(** * The equalizer's filter design, [equalizer.c]

    A shallow embedding of [LoadFrequencyAmplification] (breakpoint parser and
    frequency-response sampler) and [EqualizerLoad] (filter synthesizer and
    diagnostics) together with the properties of the design that the
    specification states.

    The program computes on C [double]s and calls three foreign libraries:
    libc ([sscanf]), libm ([cos], [sqrt], [pow], [log]) and FFTW (the two
    plans).  The arithmetic and the foreign calls are interfaces below; the
    code is written once against them.  Two instances follow: IEEE
    binary64 ([PrimFloat]), the arithmetic the machine runs, and the real
    numbers, with the transforms as FFTW's manual defines them, an
    idealisation of it.  What is proved for any instance holds of the
    machine's doubles, and so does what is proved of the binary64 instance
    from the specification of its operations.  What is proved in [Ideal]
    holds of exact arithmetic only: it leaves rounding, infinities and NaN
    aside. *)

From Stdlib Require Import Floats.
From Stdlib Require Import ZArith String Ascii Bool Lia List.
From Stdlib Require Import Reals Lra.
Import ListNotations.

Set Implicit Arguments.

(** ** Interfaces *)

(** [double] arithmetic, the comparisons the code uses, and the conversion
    [(double) n] of an [int]. *)
Class Arith (D : Type) := {
  of_int : Z -> D;
  dadd : D -> D -> D;
  dsub : D -> D -> D;
  dmul : D -> D -> D;
  ddiv : D -> D -> D;
  dle : D -> D -> bool;
  dge : D -> D -> bool;
  deq : D -> D -> bool
}.

Declare Scope double_scope.
Delimit Scope double_scope with D.
Notation "x + y" := (dadd x y) : double_scope.
Notation "x - y" := (dsub x y) : double_scope.
Notation "x * y" := (dmul x y) : double_scope.
Notation "x / y" := (ddiv x y) : double_scope.
Notation "x <= y" := (dle x y) : double_scope.
Notation "x >= y" := (dge x y) : double_scope.
Notation "x == y" := (deq x y) (at level 70) : double_scope.

(** [sscanf(config, "%lf %lf %n", &f, &amp, &len) == 2]: the two numbers and
    the count of characters read, or [None] for any other return value. *)
Class Scanf (D : Type) := {
  sscanf_lf_lf_n : string -> option (D * D * nat)
}.

(** The libm functions and [M_PI]. *)
Class Libm (D : Type) := {
  M_PI : D;
  m_cos : D -> D;
  m_sqrt : D -> D;
  m_pow : D -> D -> D;
  m_log : D -> D
}.

(** The two FFTW plans of size [n]: [hc2r n x] is what [FFTW_HC2R] writes to
    its output for the half-complex input [x], [hc2r_scratch n x] what it
    leaves in its input array (FFTW does not keep the input of a
    complex-to-real transform), [r2hc n x] what [FFTW_R2HC] writes; the
    latter keeps its input. *)
Class Fftw (D : Type) := {
  hc2r : Z -> list D -> list D;
  hc2r_scratch : Z -> list D -> list D;
  r2hc : Z -> list D -> list D
}.

(** ** Arrays and strings *)

(** [a[i] = v]; the buffers hold [block_size] elements and the code stays
    inside them, a store outside leaves the list as it is. *)
Fixpoint upd {A : Type} (i : nat) (v : A) (l : list A) : list A :=
  match l, i with
  | [], _ => []
  | _ :: l', O => v :: l'
  | x :: l', S i' => x :: upd i' v l'
  end.

(** [config += len] *)
Fixpoint string_skip (len : nat) (s : string) : string :=
  match len, s with
  | O, _ => s
  | S n, EmptyString => EmptyString
  | S n, String _ s' => string_skip n s'
  end.

(** [*config == 0] *)
Definition at_nul (s : string) : bool :=
  match s with EmptyString => true | String _ _ => false end.

(** ** The program *)

Section Program.

Context {D : Type} {AR : Arith D}.

Local Open Scope double_scope.

Definition d0 : D := of_int 0.
Definition d1 : D := of_int 1.
Definition d2 : D := of_int 2.
Definition d0_5 : D := d1 / d2.
Definition d10 : D := of_int 10.
Definition d1000 : D := of_int 1000.

(** What [Message] is called with. *)
Inductive message : Type :=
| MsgReloading (config : string)
| MsgNonincreasing
| MsgParseError
| MsgBin (f r a lg db : D)
| MsgSample (ms v : D).

(** The global [in_background]. *)
Variable in_background : Z.

(** [Message]: what reaches [stderr]. *)
Definition Message (m : message) : list message :=
  if (in_background =? 0)%Z then [m] else [].

Record Equalizer : Type := mkEqualizer {
  rate : D;
  block_size : Z;
  fftw_time : list D;
  fftw_freq : list D
}.

Definition set_time (e : Equalizer) (t : list D) : Equalizer :=
  mkEqualizer (rate e) (block_size e) t (fftw_freq e).

Definition set_freq (e : Equalizer) (q : list D) : Equalizer :=
  mkEqualizer (rate e) (block_size e) (fftw_time e) q.

(** *** LoadFrequencyAmplification *)

Section Sampler.

Context {SC : Scanf D}.

(** The locals of [LoadFrequencyAmplification]. *)
Record cursor : Type := mkCursor {
  prev_f : D;
  prev_amp : D;
  next_f : D;
  next_amp : D;
  config : string
}.

Definition cursor_init (s : string) : cursor := mkCursor d0 d1 d0 d1 s.

Inductive scan_outcome : Type :=
| Advanced (c : cursor)
| Rejected (m : message)
| Spinning.

(** The [while (f >= next_f)] loop; [fuel] bounds its iterations, and
    [Spinning] is the loop still running when the fuel is spent. *)
Fixpoint scan_while (fuel : nat) (r f : D) (c : cursor) : scan_outcome :=
  if f >= next_f c then
    match fuel with
    | O => Spinning
    | S fuel' =>
        let pf := next_f c in
        let pa := next_amp c in
        if at_nul (config c) then
          let nf := r in
          let na := pa in
          let pa := if pf == d0 then na else pa in
          scan_while fuel' r f (mkCursor pf pa nf na (config c))
        else
          match sscanf_lf_lf_n (config c) with
          | Some (nf, na, len) =>
              if nf <= pf then Rejected MsgNonincreasing
              else
                let pa := if pf == d0 then na else pa in
                scan_while fuel' r f
                  (mkCursor pf pa nf na (string_skip len (config c)))
          | None => Rejected MsgParseError
          end
    end
  else Advanced c.

(** [e->rate / e->block_size * i] *)
Definition bin_freq (r : D) (N : Z) (i : nat) : D :=
  r / of_int N * of_int (Z.of_nat i).

(** The value stored to [e->fftw_freq[i]]. *)
Definition interpolate (f : D) (c : cursor) : D :=
  ((f - prev_f c) / (next_f c - prev_f c)) * (next_amp c - prev_amp c)
  + prev_amp c.

Inductive sample_outcome : Type :=
| Sampled (freq : list D)
| Aborted (m : message) (freq : list D)
| Stuck.

(** The [for] loop over the bins still to do. *)
Fixpoint sample_bins (fuel : nat) (r : D) (N : Z) (bins : list nat)
    (c : cursor) (freq : list D) : sample_outcome :=
  match bins with
  | [] => Sampled freq
  | i :: bins' =>
      let f := bin_freq r N i in
      match scan_while fuel r f c with
      | Advanced c' => sample_bins fuel r N bins' c' (upd i (interpolate f c') freq)
      | Rejected m => Aborted m freq
      | Spinning => Stuck
      end
  end.

(** The text read as breakpoints, one [sscanf] after the other, down to
    its end. *)
Inductive scans_to : string -> list (D * D) -> Prop :=
| scans_end : scans_to EmptyString []
| scans_pair (s : string) (f a : D) (len : nat) (ps : list (D * D)) :
    at_nul s = false ->
    sscanf_lf_lf_n s = Some (f, a, len) ->
    scans_to (string_skip len s) ps ->
    scans_to s ((f, a) :: ps).

(** The locals at each store to [e->fftw_freq[i]], bin by bin; the list
    stops where the loop is left. *)
Fixpoint cursors_at (fuel : nat) (r : D) (N : Z) (bins : list nat)
    (c : cursor) : list cursor :=
  match bins with
  | [] => []
  | i :: bins' =>
      match scan_while fuel r (bin_freq r N i) c with
      | Advanced c' => c' :: cursors_at fuel r N bins' c'
      | _ => []
      end
  end.

(** [i = 0 .. block_size / 2]; C's [/] on [int] truncates. *)
Definition bins_of (N : Z) : list nat := seq 0 (Z.to_nat (N ÷ 2 + 1)).

(** The return value, the equalizer after the call and the messages; [None]
    when the call has not returned within [fuel] iterations of a [while]. *)
Definition LoadFrequencyAmplification (fuel : nat) (e : Equalizer) (s : string)
    : option (Z * Equalizer * list message) :=
  match sample_bins fuel (rate e) (block_size e) (bins_of (block_size e))
          (cursor_init s) (fftw_freq e) with
  | Sampled q => Some (1%Z, set_freq e q, [])
  | Aborted m q => Some (0%Z, set_freq e q, Message m)
  | Stuck => None
  end.

End Sampler.

(** *** GetWindow *)

Section Synthesizer.

Context {SC : Scanf D} {LM : Libm D} {FF : Fftw D}.

(** The Hann window, queried for [0 <= x < 1]. *)
Definition GetWindow (x : D) : D := d0_5 + d0_5 * m_cos (M_PI * x).

(** *** EqualizerInit *)

(** [malloc] returns [block_size] doubles of any content ([junk_time i],
    [junk_freq i]); the plans are the [Fftw] instance at size [block_size]. *)
Definition EqualizerInit (r : D) (bs : Z) (junk_time junk_freq : nat -> D)
    : Equalizer :=
  mkEqualizer r bs
    (map junk_time (seq 0 (Z.to_nat bs)))
    (map junk_freq (seq 0 (Z.to_nat bs))).

(** *** EqualizerLoad *)

(** [memset(e->fftw_freq, 0, buffer_size)]: all [N] elements become [0.0]
    ([buffer_size = sizeof(double) * N], which fits an [int] for the block
    sizes in use). *)
Definition memset_zero (N : Z) : list D := repeat d0 (Z.to_nat N).

(** [fftw_execute(e->inverse)] *)
Definition execute_inverse (e : Equalizer) : Equalizer :=
  mkEqualizer (rate e) (block_size e)
    (hc2r (block_size e) (fftw_freq e))
    (hc2r_scratch (block_size e) (fftw_freq e)).

(** [fftw_execute(e->forward)] *)
Definition execute_forward (e : Equalizer) : Equalizer :=
  set_freq e (r2hc (block_size e) (fftw_time e)).

(** [double weight = GetWindow(i / (double)(N / 2)) / N] *)
Definition weight (N : Z) (i : nat) : D :=
  GetWindow (of_int (Z.of_nat i) / of_int (N ÷ 2)) / of_int N.

(** The body of the first loop of "Multiply by symmetric window and shift". *)
Definition window_step (N : Z) (t : list D) (i : nat) : list D :=
  upd (Z.to_nat (N ÷ 2 + Z.of_nat i)) (nth i t d0 * weight N i) t.

(** [for (int i = 0; i < N / 2; ++i)] *)
Definition window_loop (N : Z) (t : list D) : list D :=
  fold_left (window_step N) (seq 0 (Z.to_nat (N ÷ 2))) t.

(** The body of the second loop. *)
Definition mirror_step (N : Z) (t : list D) (i : nat) : list D :=
  upd i (nth (Z.to_nat (N - Z.of_nat i)) t d0) t.

(** [for (int i = N / 2 - 1; i > 0; --i)] *)
Definition mirror_loop (N : Z) (t : list D) : list D :=
  fold_left (mirror_step N) (rev (seq 1 (Z.to_nat (N ÷ 2 - 1)))) t.

(** Both loops and [e->fftw_time[0] = 0]. *)
Definition window_and_shift (N : Z) (t : list D) : list D :=
  upd 0 d0 (mirror_loop N (window_loop N t)).

(** [for (int i = 0; i < N; ++i) e->fftw_freq[i] /= (double)N] *)
Definition normalize_loop (N : Z) (q : list D) : list D :=
  fold_left (fun q i => upd i (nth i q d0 / of_int N) q) (seq 0 (Z.to_nat N)) q.

(** One line of the first debug loop. *)
Definition report_bin (e : Equalizer) (requested_freq : list D) (i : nat)
    : message :=
  let N := block_size e in
  let f := (rate e / of_int N) * of_int (Z.of_nat i) in
  let a := m_sqrt (m_pow (nth i (fftw_freq e) d0) d2 +
             (if (0 <? Z.of_nat i)%Z && (Z.of_nat i <? N ÷ 2)%Z
              then m_pow (nth (Z.to_nat (N - Z.of_nat i)) (fftw_freq e) d0) d2
              else d0)) in
  let a := a * of_int N in
  let r := nth i requested_freq d0 in
  MsgBin f r a (m_log a / m_log d10) ((m_log (a / r) / m_log d10) * d10).

(** One line of the second debug loop. *)
Definition report_sample (e : Equalizer) (i : nat) : message :=
  MsgSample (d1000 * of_int (Z.of_nat i) / rate e) (nth i (fftw_time e) d0).

(** The "Debug output" block. *)
Definition debug_output (e : Equalizer) (requested_freq : list D)
    : list message :=
  flat_map (fun i => Message (report_bin e requested_freq i))
    (bins_of (block_size e))
  ++ flat_map (fun i => Message (report_sample e i))
       (seq 0 (Z.to_nat (block_size e))).

(** From [fftw_execute(e->inverse)] to [e->fftw_time[0] = 0]: the filter. *)
Definition synthesize (e : Equalizer) : Equalizer :=
  let e := execute_inverse e in
  set_time e (window_and_shift (block_size e) (fftw_time e)).

(** From [fftw_execute(e->forward)] to "End of debug". *)
Definition diagnose (e : Equalizer) (requested_freq : list D)
    : Equalizer * list message :=
  let e := execute_forward e in
  let e := set_freq e (normalize_loop (block_size e) (fftw_freq e)) in
  (e, debug_output e requested_freq).

(** [EqualizerLoad]: the return value, the equalizer after the call and the
    messages. *)
Definition EqualizerLoad (fuel : nat) (e : Equalizer) (s : string)
    : option (Z * Equalizer * list message) :=
  let N := block_size e in
  let e := set_freq e (memset_zero N) in
  let out := Message (MsgReloading s) in
  match LoadFrequencyAmplification fuel e s with
  | None => None
  | Some (ok, e, msgs) =>
      if (ok =? 0)%Z then Some (0%Z, e, out ++ msgs)
      else
        let requested_freq := fftw_freq e in
        let e := synthesize e in
        let '(e, dbg) := diagnose e requested_freq in
        Some (1%Z, e, out ++ msgs ++ dbg)
  end.

End Synthesizer.

End Program.

(** The global [in_background] is the first argument of what depends on
    it, before the fuel. *)
Arguments Equalizer D : clear implicits.
Arguments cursor D : clear implicits.
Arguments message D : clear implicits.
Arguments LoadFrequencyAmplification {D AR} in_background {SC} fuel e s.
Arguments cursors_at {D AR SC} fuel r N bins c.
Arguments scans_to {D SC} s ps.
Arguments EqualizerLoad {D AR} in_background {SC LM FF} fuel e s.
Arguments debug_output {D AR} in_background {LM} e requested_freq.
Arguments diagnose {D AR} in_background {LM FF} e requested_freq.
Arguments Message {D} in_background m.

(** ** A scanner for plain decimal numbers

    The part of [sscanf]'s ["%lf %lf %n"] that the examples need: blanks, an
    optional sign, digits and an optional fraction.  The value of
    [d1 d2 ... . e1 ... ek] is the integer [d1 d2 ... e1 ... ek] divided by
    [10^k]; on binary64 that is the correctly rounded value as long as the
    integer stays below [2^53] and [k <= 22]. *)

Definition is_space (a : ascii) : bool :=
  let n := N_of_ascii a in (n =? 32)%N || ((9 <=? n)%N && (n <=? 13)%N).

Definition digit_of (a : ascii) : option Z :=
  let n := Z.of_N (N_of_ascii a) in
  if (48 <=? n)%Z && (n <=? 57)%Z then Some (n - 48)%Z else None.

(** The text after the leading blanks, and how many there were. *)
Fixpoint skip_spaces (s : string) : string * nat :=
  match s with
  | String a s' =>
      if is_space a then let '(r, n) := skip_spaces s' in (r, S n) else (s, O)
  | EmptyString => (s, O)
  end.

(** The digits at the head of [s] appended to [acc]; how many; the rest. *)
Fixpoint scan_digits (s : string) (acc : Z) : Z * nat * string :=
  match s with
  | String a s' =>
      match digit_of a with
      | Some d => let '(m, n, r) := scan_digits s' (10 * acc + d)%Z in (m, S n, r)
      | None => (acc, O, s)
      end
  | EmptyString => (acc, O, s)
  end.

Section Decimal.

Context {D : Type} {AR : Arith D}.

Definition decimal (neg : bool) (m : Z) (k : nat) : D :=
  let m := if neg then (- m)%Z else m in
  match k with
  | O => of_int m
  | _ => ddiv (of_int m) (of_int (10 ^ Z.of_nat k))
  end.

(** One [%lf]: the value, the characters read, the rest. *)
Definition scan_lf (s : string) : option (D * nat * string) :=
  let '(s, n0) := skip_spaces s in
  let '(neg, s, n1) :=
    match s with
    | String "-"%char s' => (true, s', 1%nat)
    | String "+"%char s' => (false, s', 1%nat)
    | _ => (false, s, 0%nat)
    end in
  let '(m, n2, s) := scan_digits s 0 in
  match s with
  | String "."%char s' =>
      let '(m, n3, s') := scan_digits s' m in
      if (n2 + n3 =? 0)%nat then None
      else Some (decimal neg m n3, (n0 + n1 + n2 + 1 + n3)%nat, s')
  | _ =>
      if (n2 =? 0)%nat then None
      else Some (decimal neg m 0, (n0 + n1 + n2)%nat, s)
  end.

Definition scan_pair (s : string) : option (D * D * nat) :=
  match scan_lf s with
  | Some (f, n1, s) =>
      match scan_lf s with
      | Some (a, n2, s) =>
          let '(_, n3) := skip_spaces s in Some (f, a, (n1 + n2 + n3)%nat)
      | None => None
      end
  | None => None
  end.

Definition decimal_scanf : Scanf D := {| sscanf_lf_lf_n := scan_pair |}.

End Decimal.

(** ** The real numbers: exact arithmetic *)

Module Ideal.

Definition Rleb (x y : R) : bool := if Rle_dec x y then true else false.
Definition Rgeb (x y : R) : bool := if Rge_dec x y then true else false.
Definition Reqb (x y : R) : bool := if Req_dec_T x y then true else false.

(** Arithmetic without rounding.  It is not the arithmetic the program
    runs: it has no NaN and no infinity, [x / 0] is a number, and
    [rate / N * (N / 2)] is [rate / 2] exactly.  What is proved with it is
    stated of exact arithmetic; what the program does on doubles is proved
    for any [Arith] or on [Binary64]. *)
#[export] Instance R_arith : Arith R := {|
  of_int := IZR;
  dadd := Rplus;
  dsub := Rminus;
  dmul := Rmult;
  ddiv := Rdiv;
  dle := Rleb;
  dge := Rgeb;
  deq := Reqb
|}.

#[export] Instance R_scanf : Scanf R := decimal_scanf.

(** Breakpoint frequencies strictly increasing, the first above [lo]. *)
Fixpoint increasing_from (lo : R) (ps : list (R * R)) : Prop :=
  match ps with
  | [] => True
  | (f, _) :: ps' => (lo < f)%R /\ increasing_from f ps'
  end.

(** [pow(x, 2.0)], the one exponent the program uses, is the square. *)
Definition R_pow (x y : R) : R :=
  if Req_dec_T y 2 then (x * x)%R else Rpower x y.

#[export] Instance R_libm : Libm R := {|
  M_PI := PI;
  m_cos := cos;
  m_sqrt := sqrt;
  m_pow := R_pow;
  m_log := ln
|}.

(** The sum of [f j] over the indices in [js]. *)
Definition Rsum (f : nat -> R) (js : list nat) : R :=
  fold_right (fun j acc => (f j + acc)%R) 0%R js.

(** [2 pi j k / n] *)
Definition angle (n j k : nat) : R := (2 * PI * INR j * INR k / INR n)%R.

(** Modelled from the spec: the inverse real Fourier transform over the
    half-complex layout, which is FFTW's and not in the repository.  This
    is HC2R of size [n], output index [k], as FFTW's manual defines it: the
    input holds the real (cosine) parts [r_0 .. r_(n/2)] at [0 .. n/2] and
    the imaginary (sine) part [i_j] at [n - j], and the output is the
    unnormalized inverse transform of the Hermitian sequence they stand
    for. *)
Definition hc2r_at (n : nat) (x : list R) (k : nat) : R :=
  (nth 0 x 0
   + Rsum (fun j => 2 * (nth j x 0 * cos (angle n j k)
                         - nth (n - j) x 0 * sin (angle n j k)))
       (seq 1 ((n - 1) / 2))
   + (if Nat.even n then nth (n / 2) x 0 * cos (PI * INR k) else 0))%R.

Definition hc2r_ref (n : Z) (x : list R) : list R :=
  map (hc2r_at (Z.to_nat n) x) (seq 0 (Z.to_nat n)).

(** Modelled from the spec: the forward real Fourier transform into the
    half-complex layout, FFTW's R2HC of size [n], output index [m]: the
    real part of bin [m] for [m <= n/2], the imaginary part of bin [n - m]
    above. *)
Definition r2hc_at (n : nat) (x : list R) (m : nat) : R :=
  if (m <=? n / 2)%nat
  then Rsum (fun j => (nth j x 0 * cos (angle n j m))%R) (seq 0 n)
  else Rsum (fun j => (- (nth j x 0 * sin (angle n j (n - m))))%R) (seq 0 n).

Definition r2hc_ref (n : Z) (x : list R) : list R :=
  map (r2hc_at (Z.to_nat n) x) (seq 0 (Z.to_nat n)).

#[export] Instance R_fftw : Fftw R := {|
  hc2r := hc2r_ref;
  hc2r_scratch := fun _ x => x;
  r2hc := r2hc_ref
|}.

(** *** Equalizers for the runs below *)

(** Rate 48000, block size 8, both buffers zero. *)
Definition eq_48000_8 : Equalizer R :=
  mkEqualizer 48000%R 8 (repeat 0%R 8) (repeat 0%R 8).

(** Rate 48000, block size 4, with a spectrum left by an earlier reload. *)
Definition eq_48000_4_used : Equalizer R :=
  mkEqualizer 48000%R 4 [0; 1; 2; 1]%R [1; 1; 1; 1]%R.

(** Rate 48000, block size 2. *)
Definition eq_48000_2 : Equalizer R :=
  mkEqualizer 48000%R 2 [0; 0]%R [0; 0]%R.

End Ideal.

(** ** IEEE binary64: the machine's arithmetic *)

Module Binary64.

Definition float_of_int (z : Z) : float :=
  match z with
  | Zneg p => PrimFloat.opp (PrimFloat.of_uint63 (Uint63.of_Z (Zpos p)))
  | _ => PrimFloat.of_uint63 (Uint63.of_Z z)
  end.

#[export] Instance float_arith : Arith float := {|
  of_int := float_of_int;
  dadd := PrimFloat.add;
  dsub := PrimFloat.sub;
  dmul := PrimFloat.mul;
  ddiv := PrimFloat.div;
  dle := PrimFloat.leb;
  dge := fun x y => PrimFloat.leb y x;
  deq := PrimFloat.eqb
|}.

#[export] Instance float_scanf : Scanf float := decimal_scanf.

(** Rate 48000, block size 8, both buffers zero. *)
Definition feq_48000_8 : Equalizer float :=
  mkEqualizer 48000%float 8 (repeat 0%float 8) (repeat 0%float 8).

(** Rate 48000, block size 182: bin 91 is computed as
    [48000 / 182 * 91 = 23999.999999999996]. *)
Definition feq_48000_182 : Equalizer float :=
  mkEqualizer 48000%float 182 (repeat 0%float 182) (repeat 0%float 182).

(** What [-r 0] and [-r nan] make of the rate. *)
Definition feq_0_8 : Equalizer float :=
  mkEqualizer 0%float 8 (repeat 0%float 8) (repeat 0%float 8).

Definition feq_nan_8 : Equalizer float :=
  mkEqualizer nan 8 (repeat 0%float 8) (repeat 0%float 8).

(** Neither NaN nor infinite. *)
Definition finite (x : float) : bool :=
  match Prim2SF x with
  | S754_zero _ | S754_finite _ _ _ => true
  | _ => false
  end.

(** Finite and not [-0.0]. *)
Definition plain (x : float) : bool :=
  match Prim2SF x with
  | S754_zero false | S754_finite _ _ _ => true
  | _ => false
  end.

End Binary64.

(** ** The requested response *)

Module Requested.

Import Ideal.

(** After the spec, to compare the sampler with: the gain the breakpoints
    [ps] ask for at frequency [f], linear between neighbours, coming from
    the point [(pf, pa)]; the last gain is held beyond the last
    breakpoint. *)
Fixpoint response_from (pf pa : R) (ps : list (R * R)) (f : R) : R :=
  match ps with
  | [] => pa
  | (nf, na) :: ps' =>
      if Rlt_dec f nf then (pa + (f - pf) / (nf - pf) * (na - pa))%R
      else response_from nf na ps' f
  end.

(** After the spec: the first gain is held from frequency 0 up to the
    first breakpoint, and no breakpoint at all asks for unity gain. *)
Definition response (ps : list (R * R)) (f : R) : R :=
  match ps with
  | [] => 1%R
  | (_, a1) :: _ => response_from 0 a1 ps f
  end.

(** The locals [c] with the breakpoints [rest] still in the text agree
    with the requested response from [prev_f] on. *)
Definition tracks {SC : Scanf R} (r : R) (ps : list (R * R)) (c : cursor R)
    (rest : list (R * R)) : Prop :=
  @scans_to R SC (config c) rest /\
  increasing_from (next_f c) rest /\
  (0 < next_f c)%R /\ (prev_f c < next_f c)%R /\
  forall g, (prev_f c <= g)%R -> (g < r)%R ->
    response ps g =
    if Rlt_dec g (next_f c) then interpolate g c
    else response_from (next_f c) (next_amp c) rest g.

End Requested.

(** ** main *)

Section Main.

Context {D : Type} {AR : Arith D} {SC : Scanf D} {LM : Libm D} {FF : Fftw D}.

(** *** The options *)

(** [sscanf(optarg, "%lf", &rate) == 1] gives the number read; and the
    value of [strtol(optarg, NULL, 10)]. *)
Variable sscanf_lf : string -> option D.
Variable strtol : string -> Z.

(** A [long] stored to an [int]. *)
Definition int_of_long (z : Z) : Z := ((z + 2 ^ 31) mod 2 ^ 32 - 2 ^ 31)%Z.

Definition EX_USAGE : Z := 64.

(** The locals of [main] that the options set ([rate] is [main_rate]
    here). *)
Record locals : Type := mkLocals {
  main_rate : D;
  block : Z;
  channels : Z;
  socket_name : string;
  dsp : string;
  go_to_background : Z
}.

Definition main_defaults : locals :=
  mkLocals (of_int 48000) 2048 2 "/tmp/equalizer.socket" "/dev/vdsp.ctl" 0.

(** What [main] and [Usage] call [Message] with, and the messages of a
    reload. *)
Inductive main_message : Type :=
| MsgCannotParseRate
| MsgWrongBlockSize
| MsgWrongChannels
| MsgUsage
| MsgCannotOpenDevice
| MsgCannotSetFilter (channel error errno : Z)
| MsgLoad (m : message D).

(** The end of the option loop, or the [exit] of [Usage]. *)
Inductive parsed : Type :=
| Parsed (l : locals)
| Exited (status : Z) (out : list main_message).

(** [Usage]: [in_background] is still 0 while the options are read, so the
    text is printed. *)
Definition Usage (before : list main_message) : parsed :=
  Exited EX_USAGE (before ++ [MsgUsage]).

(** The [switch (opt)] for one result of [getopt_long]. *)
Definition option_step (l : locals) (opt : ascii) (optarg : string)
    : parsed :=
  if Ascii.eqb opt "d" then
    Parsed (mkLocals (main_rate l) (block l) (channels l) (socket_name l)
              optarg (go_to_background l))
  else if Ascii.eqb opt "r" then
    match sscanf_lf optarg with
    | Some r =>
        Parsed (mkLocals r (block l) (channels l) (socket_name l) (dsp l)
                  (go_to_background l))
    | None => Usage [MsgCannotParseRate]
    end
  else if Ascii.eqb opt "b" then
    let b := int_of_long (strtol optarg) in
    if (b =? 0)%Z || negb (Z.rem b 2 =? 0)%Z then Usage [MsgWrongBlockSize]
    else
      Parsed (mkLocals (main_rate l) b (channels l) (socket_name l) (dsp l)
                (go_to_background l))
  else if Ascii.eqb opt "c" then
    let c := int_of_long (strtol optarg) in
    if (c =? 0)%Z then Usage [MsgWrongChannels]
    else
      Parsed (mkLocals (main_rate l) (block l) c (socket_name l) (dsp l)
                (go_to_background l))
  else if Ascii.eqb opt "B" then
    Parsed (mkLocals (main_rate l) (block l) (channels l) (socket_name l)
              (dsp l) 1)
  else if Ascii.eqb opt "s" then
    Parsed (mkLocals (main_rate l) (block l) (channels l) optarg (dsp l)
              (go_to_background l))
  else Usage [].

(** The [while ((opt = getopt_long(...)) != -1)] loop over the results
    [args] of [getopt_long], each with its [optarg]. *)
Fixpoint parse_options (args : list (ascii * string)) (l : locals) : parsed :=
  match args with
  | [] => Parsed l
  | (opt, optarg) :: args' =>
      match option_step l opt optarg with
      | Parsed l' => parse_options args' l'
      | Exited status out => Exited status out
      end
  end.

(** *** The request loop *)

(** What the loop asks of the device. *)
Inductive device_call : Type :=
| DevOpen (path : string)
| DevIoctl (fd channel number filter_size : Z) (filter_data : list D)
| DevClose (fd : Z).

Variable in_background : Z.

(** [Message] again, for the messages of [main]. *)
Definition MainMessage (m : main_message) : list main_message :=
  if (in_background =? 0)%Z then [m] else [].

(** The bytes of [buffer] up to the first 0: the string that
    [EqualizerLoad] is given. *)
Fixpoint c_string (buffer : string) : string :=
  match buffer with
  | EmptyString => EmptyString
  | String a rest =>
      if Ascii.eqb a Ascii.zero then EmptyString else String a (c_string rest)
  end.

(** The first [n] bytes. *)
Fixpoint string_take (n : nat) (s : string) : string :=
  match n, s with
  | S n', String a rest => String a (string_take n' rest)
  | _, _ => EmptyString
  end.

(** [read(s, buffer, sizeof(buffer) - 1)] and [buffer[len] = 0] for a
    datagram that has arrived. *)
Definition read_buffer (datagram : string) : string :=
  c_string (string_take (Z.to_nat 65535) datagram).

(** The [for (fir.channel = 0; fir.channel < channels; ++fir.channel)] loop
    over the channels still to do; [ioctl_result channel] is what [ioctl]
    returns and the [errno] it leaves. *)
Fixpoint set_filters (e : Equalizer D) (fd : Z) (ioctl_result : Z -> Z * Z)
    (chs : list nat) : list device_call * list main_message :=
  match chs with
  | [] => ([], [])
  | ch :: chs' =>
      let channel := Z.of_nat ch in
      let call := DevIoctl fd channel 0 (block_size e) (fftw_time e) in
      let '(error, errno) := ioctl_result channel in
      let msg :=
        if (error =? 0)%Z then []
        else MainMessage (MsgCannotSetFilter channel error errno) in
      let '(calls, msgs) := set_filters e fd ioctl_result chs' in
      (call :: calls, msg ++ msgs)
  end.

(** One round of [while (1)]: the equalizer after it, the calls to the
    device and the messages; [fd] is what [open] returns. *)
Definition serve_one (fuel : nat) (l : locals) (fd : Z)
    (ioctl_result : Z -> Z * Z) (e : Equalizer D) (datagram : string)
    : option (Equalizer D * list device_call * list main_message) :=
  match EqualizerLoad in_background fuel e (read_buffer datagram) with
  | None => None
  | Some (ok, e, out) =>
      if (ok =? 0)%Z then Some (e, [], map MsgLoad out)
      else if (fd =? 0)%Z then
        Some (e, [DevOpen (dsp l)],
              map MsgLoad out ++ MainMessage MsgCannotOpenDevice)
      else
        let '(calls, msgs) :=
          set_filters e fd ioctl_result (seq 0 (Z.to_nat (channels l))) in
        Some (e, DevOpen (dsp l) :: calls ++ [DevClose fd],
              map MsgLoad out ++ msgs)
  end.

(** The rounds for the datagrams [reqs], each with what [open] and [ioctl]
    answer in its round. *)
Fixpoint serve (fuel : nat) (l : locals)
    (reqs : list (string * Z * (Z -> Z * Z))) (e : Equalizer D)
    : option (Equalizer D * list device_call * list main_message) :=
  match reqs with
  | [] => Some (e, [], [])
  | (datagram, fd, ioctl_result) :: reqs' =>
      match serve_one fuel l fd ioctl_result e datagram with
      | None => None
      | Some (e1, calls1, msgs1) =>
          match serve fuel l reqs' e1 with
          | None => None
          | Some (e2, calls2, msgs2) =>
              Some (e2, calls1 ++ calls2, msgs1 ++ msgs2)
          end
      end
  end.

End Main.

Arguments locals D : clear implicits.

(** What the option loop has checked of the locals. *)
Definition checked {D : Type} (l : locals D) : Prop :=
  block l <> 0%Z /\ Z.even (block l) = true /\
  (- 2 ^ 31 <= block l < 2 ^ 31)%Z /\
  channels l <> 0%Z /\ (- 2 ^ 31 <= channels l < 2 ^ 31)%Z.

Arguments main_message D : clear implicits.
Arguments parsed D : clear implicits.
Arguments device_call D : clear implicits.

(** [strtol] on a plain decimal number: blanks, a sign, digits; 0 when
    there is no digit. *)
Definition decimal_strtol (s : string) : Z :=
  let '(s, _) := skip_spaces s in
  let '(neg, s) :=
    match s with
    | String "-"%char s' => (true, s')
    | String "+"%char s' => (false, s')
    | _ => (false, s)
    end in
  let '(m, _, _) := scan_digits s 0 in
  if neg then (- m)%Z else m.

(** ** What the sampler's loop establishes, for any arithmetic *)

Section Established.

Context {D : Type} {AR : Arith D} {SC : Scanf D}.

Local Open Scope double_scope.

(** Frequencies that the check [next_f <= prev_f] lets pass one after the
    other, [lo] being the frequency before the first. *)
Fixpoint ascending (lo : D) (ps : list (D * D)) : Prop :=
  match ps with
  | [] => True
  | (f, _) :: rest => (f <= lo) = false /\ ascending f rest
  end.

(** The interpolation between two equal gains [a] with the weight [q]
    gives [a] back: [a - a], the product with [q] and the sum with [a]
    lose nothing. *)
Definition level_exact (q a : D) : Prop := q * (a - a) + a = a.

(** Where the loop stands in the breakpoints [all] of a text, at rate [r]:
    either [(next_f, next_amp)] is one of them and [rest] are those still
    in the text, or the end of the text has been passed, the last
    breakpoint is in [prev_f] and its gain is extended to [r]. *)
Definition covers (all : list (D * D)) (r : D) (c : cursor D)
    (rest : list (D * D)) : Prop :=
  scans_to (config c) rest /\
  ((ascending (next_f c) rest /\
    exists done, all = done ++ (next_f c, next_amp c) :: rest) \/
   (rest = [] /\
    prev_f c = fst (last all (d0, d1)) /\ next_f c = r /\
    prev_amp c = snd (last all (d0, d1)) /\
    next_amp c = snd (last all (d0, d1)))).

(** What the code has compared when it divides by [next_f - prev_f]:
    the check on the pair read last has found [next_f <= prev_f] false, or
    the end of the text has been passed at a bin whose frequency had
    reached [prev_f] and not [next_f]. *)
Definition separated (r : D) (N : Z) (c : cursor D) : Prop :=
  (next_f c <= prev_f c) = false \/
  exists i, In i (bins_of N) /\
            (bin_freq r N i >= prev_f c) = true /\
            (bin_freq r N i >= next_f c) = false.

End Established.

(** ** Arrays *)

Section ArrayFacts.

Context {A : Type}.

Lemma upd_length (i : nat) (v : A) (l : list A) :
  length (upd i v l) = length l.
Proof.
  revert i; induction l as [|x l IH]; intros [|i]; simpl; auto.
Qed.

Lemma nth_upd_same (i : nat) (v d : A) (l : list A) :
  (i < length l)%nat -> nth i (upd i v l) d = v.
Proof.
  revert i; induction l as [|x l IH]; intros [|i] H; simpl in *;
    try lia; auto.
  apply IH; lia.
Qed.

Lemma nth_upd_other (i j : nat) (v d : A) (l : list A) :
  i <> j -> nth j (upd i v l) d = nth j l d.
Proof.
  revert i j; induction l as [|x l IH]; intros [|i] [|j] H; simpl;
    try reflexivity; try congruence.
  apply IH; congruence.
Qed.

Lemma nth_repeat_any (x : A) (n i : nat) : nth i (repeat x n) x = x.
Proof.
  revert i; induction n as [|n IH]; intros [|i]; simpl; auto.
Qed.

End ArrayFacts.

(** ** The sampler, for any arithmetic and any scanner *)

Section SamplerFacts.

Context {D : Type} {AR : Arith D} {SC : Scanf D}.

Local Open Scope double_scope.

(** The loop is not entered when [f >= next_f] is false. *)
Lemma scan_while_exit (fuel : nat) (r f : D) (c : cursor D) :
  (f >= next_f c) = false -> scan_while fuel r f c = Advanced c.
Proof.
  intros H; destruct fuel; simpl; rewrite H; reflexivity.
Qed.

(** One iteration that scans a pair and accepts it. *)
Lemma scan_while_scan (fuel : nat) (r f : D) (c : cursor D) nf na len :
  (f >= next_f c) = true ->
  at_nul (config c) = false ->
  sscanf_lf_lf_n (config c) = Some (nf, na, len) ->
  (nf <= next_f c) = false ->
  scan_while (S fuel) r f c =
  scan_while fuel r f
    (mkCursor (next_f c) (if next_f c == d0 then na else next_amp c)
       nf na (string_skip len (config c))).
Proof.
  intros H1 H2 H3 H4; simpl; rewrite H1, H2, H3, H4; reflexivity.
Qed.

(** One iteration at the end of the text. *)
Lemma scan_while_nul (fuel : nat) (r f : D) (c : cursor D) :
  (f >= next_f c) = true ->
  at_nul (config c) = true ->
  scan_while (S fuel) r f c =
  scan_while fuel r f
    (mkCursor (next_f c) (next_amp c) r (next_amp c) (config c)).
Proof.
  intros H1 H2; simpl; rewrite H1, H2.
  destruct (next_f c == d0); reflexivity.
Qed.

(** The two ways out with [return 0]. *)
Lemma scan_while_nonincreasing (fuel : nat) (r f : D) (c : cursor D) nf na len :
  (f >= next_f c) = true ->
  at_nul (config c) = false ->
  sscanf_lf_lf_n (config c) = Some (nf, na, len) ->
  (nf <= next_f c) = true ->
  scan_while (S fuel) r f c = Rejected MsgNonincreasing.
Proof.
  intros H1 H2 H3 H4; simpl; rewrite H1, H2, H3, H4; reflexivity.
Qed.

Lemma scan_while_unscannable (fuel : nat) (r f : D) (c : cursor D) :
  (f >= next_f c) = true ->
  at_nul (config c) = false ->
  sscanf_lf_lf_n (config c) = None ->
  scan_while (S fuel) r f c = Rejected MsgParseError.
Proof.
  intros H1 H2 H3; simpl; rewrite H1, H2, H3; reflexivity.
Qed.

(** The sampler stores to the bins it is given and nowhere else. *)
Lemma sample_bins_frame (fuel : nat) (r : D) (N : Z) (bins : list nat) :
  forall c q q' j,
  (sample_bins fuel r N bins c q = Sampled q' \/
   exists m, sample_bins fuel r N bins c q = Aborted m q') ->
  ~ In j bins -> nth j q' d0 = nth j q d0.
Proof.
  induction bins as [|i bins IH]; intros c q q' j Hs Hj; simpl in Hs.
  - destruct Hs as [Hs|[m Hs]]; inversion Hs; reflexivity.
  - destruct (scan_while fuel r (bin_freq r N i) c) as [c'|m'|].
    + rewrite (IH _ _ _ j Hs) by (intros Hin; apply Hj; right; exact Hin).
      apply nth_upd_other. intros ->. apply Hj. left. reflexivity.
    + destruct Hs as [Hs|[m Hs]]; inversion Hs; reflexivity.
    + destruct Hs as [Hs|[m Hs]]; inversion Hs.
Qed.

Lemma sample_bins_length (fuel : nat) (r : D) (N : Z) (bins : list nat) :
  forall c q q',
  (sample_bins fuel r N bins c q = Sampled q' \/
   exists m, sample_bins fuel r N bins c q = Aborted m q') ->
  length q' = length q.
Proof.
  induction bins as [|i bins IH]; intros c q q' Hs; simpl in Hs.
  - destruct Hs as [Hs|[m Hs]]; inversion Hs; reflexivity.
  - destruct (scan_while fuel r (bin_freq r N i) c) as [c'|m'|].
    + rewrite (IH _ _ _ Hs). apply upd_length.
    + destruct Hs as [Hs|[m Hs]]; inversion Hs; reflexivity.
    + destruct Hs as [Hs|[m Hs]]; inversion Hs.
Qed.


(** Each bin of a completed run holds the interpolation at the locals of
    its own store. *)
Lemma sample_bins_stores (fuel : nat) (r : D) (N : Z) (bins : list nat) :
  forall c q q' k i,
  sample_bins fuel r N bins c q = Sampled q' ->
  NoDup bins ->
  nth_error bins k = Some i ->
  (i < length q)%nat ->
  exists c', nth_error (cursors_at fuel r N bins c) k = Some c' /\
             nth i q' d0 = interpolate (bin_freq r N i) c'.
Proof.
  induction bins as [|b bins IH]; intros c q q' k i Hs Hnd Hk Hi.
  - destruct k; discriminate.
  - simpl in Hs |- *.
    destruct (scan_while fuel r (bin_freq r N b) c) as [c'|m'|];
      try discriminate.
    inversion Hnd as [|? ? Hnotin Hnd']; subst.
    destruct k as [|k]; simpl in Hk.
    + inversion Hk; subst. exists c'. split; [reflexivity|].
      erewrite sample_bins_frame; [|left; exact Hs|exact Hnotin].
      apply nth_upd_same. exact Hi.
    + apply (IH c' _ q' k i Hs Hnd' Hk). rewrite upd_length. exact Hi.
Qed.

End SamplerFacts.

(** ** Parse errors and the text that is never scanned *)

Section ParserFacts.

Context {D : Type} {AR : Arith D} {SC : Scanf D}.

Local Open Scope double_scope.

(** Bins below the next breakpoint leave the locals alone. *)
Lemma sample_bins_below (fuel : nat) (r : D) (N : Z) (bins : list nat) :
  forall c q,
  (forall i, In i bins -> (bin_freq r N i >= next_f c) = false) ->
  exists q', sample_bins fuel r N bins c q = Sampled q'.
Proof.
  induction bins as [|i bins IH]; intros c q Hlow; simpl.
  - eexists; reflexivity.
  - rewrite scan_while_exit by (apply Hlow; left; reflexivity).
    apply IH. intros j Hj. apply Hlow. right. exact Hj.
Qed.

(** A first pair above every bin frequency is the only text read. *)
Lemma sample_bins_first_pair_covers (fuel : nat) (r : D) (N : Z)
    (s : string) (q : list D) f1 a1 len1 :
  at_nul s = false ->
  sscanf_lf_lf_n s = Some (f1, a1, len1) ->
  (f1 <= d0) = false ->
  (bin_freq r N 0 >= d0) = true ->
  (forall i, In i (bins_of N) -> (bin_freq r N i >= f1) = false) ->
  exists q', sample_bins (S fuel) r N (bins_of N) (cursor_init s) q = Sampled q'.
Proof.
  intros Hnul Hscan Hpos H0 Hlow. unfold bins_of in *.
  destruct (Z.to_nat (N ÷ 2 + 1)) as [|n].
  - eexists; reflexivity.
  - cbn [seq sample_bins].
    rewrite (@scan_while_scan _ _ _ fuel r _ (cursor_init s) f1 a1 len1)
      by assumption.
    rewrite scan_while_exit by (apply Hlow; left; reflexivity).
    apply sample_bins_below. intros i Hi. apply Hlow. right. exact Hi.
Qed.



End ParserFacts.

(** ** The ends of the response and the level response, for any arithmetic *)

Section EndsFacts.

Context {D : Type} {AR : Arith D} {SC : Scanf D}.

Local Open Scope double_scope.

(** One run of the [while] loop keeps the place in the breakpoints, reads
    on while the bin has reached [next_f], and ends below [next_f]. *)
Lemma scan_while_covers (all : list (D * D)) (r f : D) (rest : list (D * D)) :
  forall c fuel,
  covers all r c rest -> (f >= r) = false -> (length rest < fuel)%nat ->
  exists c' rest',
    scan_while fuel r f c = Advanced c' /\
    covers all r c' rest' /\
    (length rest' <= length rest)%nat /\ (f >= next_f c') = false.
Proof.
  induction rest as [|[f' a'] rest IH]; intros c fuel Hc Hf Hfuel;
    destruct (f >= next_f c) eqn:Hg;
    try (exists c; eexists; split; [apply scan_while_exit; exact Hg|];
         split; [exact Hc|]; split; [apply Nat.le_refl|exact Hg]);
    destruct fuel as [|fuel]; try (simpl in Hfuel; lia);
    destruct Hc as (Hscan & [(Hasc & done & Hall)|(Hnil & Hpf & Hnf & _)]);
    try discriminate; try congruence.
  - inversion Hscan as [Hcfg|]; subst.
    rewrite scan_while_nul by (try exact Hg; rewrite <- Hcfg; reflexivity).
    exists (mkCursor (next_f c) (next_amp c) r (next_amp c) (config c)), [].
    split; [apply scan_while_exit; exact Hf|].
    split; [|split; [apply Nat.le_refl|exact Hf]].
    split; [rewrite <- Hcfg; constructor|]. right.
    rewrite last_last. cbn [prev_f next_f prev_amp next_amp fst snd].
    repeat split.
  - inversion Hscan as [|s0 f0 a0 len ps Hnul Hsc Hrest]; subst.
    destruct Hasc as [Hlo Hasc].
    rewrite (scan_while_scan fuel r f c Hg Hnul Hsc Hlo).
    destruct (IH (mkCursor (next_f c)
                    (if next_f c == d0 then a' else next_amp c)
                    f' a' (string_skip len (config c))) fuel)
      as (c' & rest' & Hs & Hc' & Hlen & Hlt); try assumption.
    { split; [exact Hrest|]. left. split; [exact Hasc|].
      exists (done ++ [(next_f c, next_amp c)]).
      rewrite <- app_assoc. reflexivity. }
    { simpl in Hfuel. lia. }
    exists c', rest'. split; [exact Hs|]. split; [exact Hc'|].
    split; [simpl; lia|exact Hlt].
Qed.

(** The bins up to a last bin [m]: all are sampled, and the locals at the
    store to bin [m] still have their place in the breakpoints. *)
Lemma sample_bins_covers (all : list (D * D)) (fuel : nat) (r : D) (N : Z)
    (m : nat) (bins : list nat) :
  forall c rest q,
  covers all r c rest -> (length rest < fuel)%nat ->
  (forall i, In i (bins ++ [m]) -> (bin_freq r N i >= r) = false) ->
  ~ In m bins -> (m < length q)%nat ->
  exists q' c' rest',
    sample_bins fuel r N (bins ++ [m]) c q = Sampled q' /\
    covers all r c' rest' /\
    (bin_freq r N m >= next_f c') = false /\
    nth m q' d0 = interpolate (bin_freq r N m) c' /\
    (forall j, ~ In j (bins ++ [m]) -> nth j q' d0 = nth j q d0).
Proof.
  induction bins as [|b bins IH]; intros c rest q Hc Hfuel Hlow Hm Hlen.
  - cbn [app sample_bins].
    destruct (@scan_while_covers all r (bin_freq r N m) rest c fuel)
      as (c' & rest' & -> & Hc' & _ & Hlt); try assumption.
    { apply Hlow. left. reflexivity. }
    exists (upd m (interpolate (bin_freq r N m) c') q), c', rest'.
    split; [reflexivity|]. split; [exact Hc'|]. split; [exact Hlt|].
    split; [apply nth_upd_same; exact Hlen|].
    intros j Hj. apply nth_upd_other. intros ->. apply Hj. left.
    reflexivity.
  - cbn [app sample_bins].
    destruct (@scan_while_covers all r (bin_freq r N b) rest c fuel)
      as (c1 & rest1 & -> & Hc1 & Hle & _); try assumption.
    { apply Hlow. left. reflexivity. }
    destruct (IH c1 rest1 (upd b (interpolate (bin_freq r N b) c1) q))
      as (q' & c' & rest' & Hs & Hc' & Hlt & Hst & Hout); try assumption.
    { lia. }
    { intros i Hi. apply Hlow. right. exact Hi. }
    { intros Hin. apply Hm. right. exact Hin. }
    { rewrite upd_length. exact Hlen. }
    exists q', c', rest'. split; [exact Hs|]. split; [exact Hc'|].
    split; [exact Hlt|]. split; [exact Hst|].
    intros j Hj. rewrite Hout by (intros Hin; apply Hj; right; exact Hin).
    apply nth_upd_other. intros ->. apply Hj. left. reflexivity.
Qed.

(** Between two equal gains the value stored is that gain when the
    arithmetic is exact there. *)
Lemma interpolate_level_exact (f : D) (c : cursor D) (a : D) :
  prev_amp c = a -> next_amp c = a ->
  level_exact ((f - prev_f c) / (next_f c - prev_f c)) a ->
  interpolate f c = a.
Proof. intros Hp Hn H. unfold interpolate. rewrite Hp, Hn. exact H. Qed.


(** For a text of breakpoints that the check [next_f <= prev_f] lets
    pass, with bin 0 entering the loop and below the first breakpoint and
    every bin below the rate, [LoadFrequencyAmplification] returns 1; bin
    0 holds the gain of the first breakpoint, and bin [N/2] holds the gain
    of the last breakpoint when the frequency computed for that bin has
    reached every breakpoint; each where the interpolation between the
    two equal gains is exact. *)
Lemma sampler_ends_exact (bg : Z) (fuel : nat) (e : Equalizer D)
    (s : string) (f1 a1 : D) (ps : list (D * D)) :
  let r := rate e in
  let N := block_size e in
  let h := Z.to_nat (N ÷ 2) in
  let f_last := fst (last ps (f1, a1)) in
  let a_last := snd (last ps (f1, a1)) in
  scans_to s ((f1, a1) :: ps) ->
  ascending d0 ((f1, a1) :: ps) ->
  (d0 == d0) = true ->
  (bin_freq r N 0 >= d0) = true ->
  (bin_freq r N 0 >= f1) = false ->
  (forall i, (Z.of_nat i <= N ÷ 2)%Z -> (bin_freq r N i >= r) = false) ->
  (2 <= N)%Z ->
  length (fftw_freq e) = Z.to_nat N ->
  (length ps < fuel)%nat ->
  exists e',
    LoadFrequencyAmplification bg fuel e s = Some (1%Z, e', []) /\
    (level_exact ((bin_freq r N 0 - d0) / (f1 - d0)) a1 ->
     nth 0 (fftw_freq e') d0 = a1) /\
    ((forall p, In p ((f1, a1) :: ps) ->
                (bin_freq r N h >= fst p) = true) ->
     level_exact ((bin_freq r N h - f_last) / (r - f_last)) a_last ->
     nth h (fftw_freq e') d0 = a_last).
Proof.
  intros r N h f_last a_last Hscan [Hf1 Hasc] H00 H0 H1 Hr HN Hlen Hfuel.
  assert (Hq : (2 * (N ÷ 2) <= N)%Z) by (apply Z.mul_quot_le; lia).
  assert (Hq1 : (1 <= N ÷ 2)%Z).
  { replace 1%Z with (2 ÷ 2)%Z by reflexivity.
    apply Z.quot_le_mono; lia. }
  assert (Hh : (1 <= h)%nat) by (subst h; lia).
  assert (Hbins : bins_of N = 0%nat :: (seq 1 (h - 1) ++ [h])).
  { unfold bins_of. replace (Z.to_nat (N ÷ 2 + 1)) with (S h) by (subst h; lia).
    cbn [seq]. f_equal.
    replace h with (h - 1 + 1)%nat at 1 by lia.
    rewrite seq_app. simpl. do 2 f_equal. lia. }
  inversion Hscan as [|s0 f0 a0 len ps0 Hnul Hsc Hrest]; subst s0 f0 a0 ps0.
  destruct fuel as [|fuel]; [lia|].
  unfold LoadFrequencyAmplification. fold r N. rewrite Hbins.
  cbn [sample_bins].
  set (c1 := mkCursor d0 a1 f1 a1 (string_skip len s)).
  assert (Hfirst : scan_while (S fuel) r (bin_freq r N 0) (cursor_init s)
                   = Advanced c1).
  { rewrite (@scan_while_scan _ _ _ fuel r _ (cursor_init s) f1 a1 len);
      try assumption.
    cbn [cursor_init next_f next_amp config]. rewrite H00.
    apply scan_while_exit. exact H1. }
  rewrite Hfirst.
  destruct (@sample_bins_covers ((f1, a1) :: ps) (S fuel) r N h
              (seq 1 (h - 1)) c1 ps
              (upd 0 (interpolate (bin_freq r N 0) c1) (fftw_freq e)))
    as (q' & c' & rest' & -> & Hc' & Hlt & Hst & Hout).
  { split; [exact Hrest|]. left. split; [exact Hasc|].
    exists []. reflexivity. }
  { lia. }
  { intros i Hi. apply Hr.
    apply in_app_iff in Hi. rewrite in_seq in Hi. simpl in Hi. subst h. lia. }
  { rewrite in_seq. lia. }
  { rewrite upd_length, Hlen. subst h. lia. }
  eexists. split; [reflexivity|]. cbn [fftw_freq set_freq]. split.
  - intros Hex.
    rewrite Hout by (rewrite in_app_iff, in_seq; simpl; lia).
    rewrite nth_upd_same by (rewrite Hlen; lia).
    apply interpolate_level_exact; [reflexivity|reflexivity|exact Hex].
  - intros Hreach Hex. rewrite Hst.
    destruct Hc' as (_ & [(_ & done & Hall)|(_ & Hpf & Hnf & Hpa & Hna)]).
    + assert (Hin : In (next_f c', next_amp c') ((f1, a1) :: ps))
        by (rewrite Hall; apply in_elt).
      apply Hreach in Hin. cbn [fst] in Hin. congruence.
    + assert (Hl : last ((f1, a1) :: ps) (d0, d1) = last ps (f1, a1)).
      { clear. revert f1 a1. generalize (d0, d1).
        induction ps as [|p ps IH]; intros d f1 a1; [reflexivity|].
        change (last ((f1, a1) :: p :: ps) d) with (last (p :: ps) d).
        destruct p as [f2 a2]. rewrite (IH d f2 a2), (IH (f1, a1) f2 a2).
        reflexivity. }
      rewrite Hl in *.
      apply interpolate_level_exact; [exact Hpa|exact Hna|].
      rewrite Hpf, Hnf. exact Hex.
Qed.

(** For the empty text, when bin 0 enters the loop, every bin is below
    the rate and the interpolation between 1.0 and 1.0 is exact at every
    bin, [LoadFrequencyAmplification] returns 1 without a message and
    stores exactly 1.0 to every bin [0 .. N/2]. *)
Lemma empty_text_level_exact (bg : Z) (fuel : nat) (e : Equalizer D) :
  let r := rate e in
  let N := block_size e in
  (bin_freq r N 0 >= d0) = true ->
  (forall i, (Z.of_nat i <= N ÷ 2)%Z -> (bin_freq r N i >= r) = false) ->
  (forall i, (Z.of_nat i <= N ÷ 2)%Z ->
             level_exact ((bin_freq r N i - d0) / (r - d0)) d1) ->
  (0 < N)%Z ->
  length (fftw_freq e) = Z.to_nat N ->
  exists e',
    LoadFrequencyAmplification bg (S fuel) e "" = Some (1%Z, e', []) /\
    forall i, (Z.of_nat i <= N ÷ 2)%Z -> nth i (fftw_freq e') d0 = d1.
Proof.
  intros r N H0 Hr Hex HN Hlen. unfold LoadFrequencyAmplification. fold r N.
  set (c1 := mkCursor d0 d1 r d1 "").
  assert (Hq : (2 * (N ÷ 2) <= N)%Z) by (apply Z.mul_quot_le; lia).
  assert (Hq0 : (0 <= N ÷ 2)%Z) by (apply Z.quot_pos; lia).
  assert (Hfirst : scan_while (S fuel) r (bin_freq r N 0) (cursor_init "")
                   = Advanced c1).
  { rewrite scan_while_nul by (try reflexivity; exact H0).
    apply scan_while_exit. apply Hr. simpl. lia. }
  assert (Hrest : forall bins q,
            (forall i, In i bins -> (Z.of_nat i <= N ÷ 2)%Z) ->
            exists q',
              sample_bins (S fuel) r N bins c1 q = Sampled q' /\
              (forall i, In i bins -> (i < length q)%nat ->
                         nth i q' d0 = d1) /\
              (forall j, ~ In j bins -> nth j q' d0 = nth j q d0)).
  { induction bins as [|b bins IH]; intros q Hb.
    - exists q. split; [reflexivity|]. split; [intros i []|reflexivity].
    - cbn [sample_bins].
      rewrite scan_while_exit by (apply Hr, Hb; left; reflexivity).
      destruct (IH (upd b (interpolate (bin_freq r N b) c1) q))
        as (q' & Hs & Hin & Hout).
      { intros i Hi. apply Hb. right. exact Hi. }
      exists q'. split; [exact Hs|]. split.
      + intros i Hi Hl.
        destruct (in_dec Nat.eq_dec i bins) as [Hib|Hib].
        * apply Hin; [exact Hib|rewrite upd_length; exact Hl].
        * destruct Hi as [->|Hi]; [|contradiction].
          rewrite (Hout i Hib), nth_upd_same by exact Hl.
          apply interpolate_level_exact; [reflexivity|reflexivity|].
          apply Hex, Hb. left. reflexivity.
      + intros j Hj. rewrite Hout by (intros Hc; apply Hj; right; exact Hc).
        apply nth_upd_other. intros ->. apply Hj. left. reflexivity. }
  unfold bins_of.
  replace (Z.to_nat (N ÷ 2 + 1)) with (S (Z.to_nat (N ÷ 2))) by lia.
  cbn [seq sample_bins]. rewrite Hfirst.
  destruct (Hrest (seq 1 (Z.to_nat (N ÷ 2)))
              (upd 0 (interpolate (bin_freq r N 0) c1) (fftw_freq e)))
    as (q' & -> & Hin & Hout).
  { intros i Hi. apply in_seq in Hi. lia. }
  eexists. split; [reflexivity|].
  intros i Hi. cbn [fftw_freq set_freq].
  assert (Hil : (i < length (fftw_freq e))%nat) by (rewrite Hlen; lia).
  destruct (Nat.eq_dec i 0) as [->|Hi0].
  - rewrite Hout by (rewrite in_seq; lia).
    rewrite nth_upd_same by exact Hil.
    apply interpolate_level_exact; [reflexivity|reflexivity|].
    apply Hex. exact Hi.
  - apply Hin; [rewrite in_seq; lia|rewrite upd_length; exact Hil].
Qed.

(** Leaving the [while] loop at a bin, the locals are separated: either
    they were and the loop was not entered, or the last round found them
    so. *)
Lemma scan_while_separated (fuel : nat) (r : D) (N : Z) (i : nat) :
  In i (bins_of N) ->
  forall c c',
  scan_while fuel r (bin_freq r N i) c = Advanced c' ->
  separated r N c \/ (bin_freq r N i >= next_f c) = true ->
  separated r N c'.
Proof.
  intros Hi. induction fuel as [|fuel IH]; intros c c' Hs Hc; simpl in Hs;
    destruct (bin_freq r N i >= next_f c) eqn:Hg; try discriminate;
    try (inversion Hs; subst; destruct Hc as [Hc|Hc];
         [exact Hc|discriminate]).
  destruct (at_nul (config c)).
  - apply (IH _ _ Hs). cbn [next_f].
    destruct (bin_freq r N i >= r) eqn:Hr; [right; reflexivity|].
    left. right. exists i. cbn [prev_f next_f]. auto.
  - destruct (sscanf_lf_lf_n (config c)) as [[[nf na] len]|];
      try discriminate.
    destruct (nf <= next_f c) eqn:Hl; try discriminate.
    apply (IH _ _ Hs). left. left. cbn [prev_f next_f]. exact Hl.
Qed.

Lemma cursors_at_separated (fuel : nat) (r : D) (N : Z) (bins : list nat) :
  (forall i, In i bins -> In i (bins_of N)) ->
  forall c,
  separated r N c \/
  (exists b bins', bins = b :: bins' /\ (bin_freq r N b >= next_f c) = true) ->
  Forall (separated r N) (cursors_at fuel r N bins c).
Proof.
  induction bins as [|b bins IH]; intros Hb c Hc; cbn [cursors_at];
    [constructor|].
  destruct (scan_while fuel r (bin_freq r N b) c) as [c'| |] eqn:Hs;
    try constructor.
  - eapply scan_while_separated; [apply Hb; left; reflexivity|exact Hs|].
    destruct Hc as [Hc|(b' & bins' & Heq & Hc)]; [left; exact Hc|].
    inversion Heq; subst. right. exact Hc.
  - apply IH; [intros i Hi; apply Hb; right; exact Hi|].
    left. eapply scan_while_separated; [apply Hb; left; reflexivity|exact Hs|].
    destruct Hc as [Hc|(b' & bins' & Heq & Hc)]; [left; exact Hc|].
    inversion Heq; subst. right. exact Hc.
Qed.

(** When bin 0 enters the loop and [LoadFrequencyAmplification] returns
    1, the locals [c] that [interpolate] divides with at the store to a
    bin are separated: the code has found [next_f <= prev_f] false, or it
    has found a bin frequency that had reached [prev_f] and not
    [next_f]. *)
Lemma stores_separated (bg : Z) (fuel : nat)
    (e e' : Equalizer D) (s : string) (msgs : list (message D)) (i : nat) :
  LoadFrequencyAmplification bg fuel e s = Some (1%Z, e', msgs) ->
  (bin_freq (rate e) (block_size e) 0 >= d0) = true ->
  (0 < block_size e)%Z ->
  length (fftw_freq e) = Z.to_nat (block_size e) ->
  (Z.of_nat i <= block_size e ÷ 2)%Z ->
  exists c,
    nth_error (cursors_at fuel (rate e) (block_size e)
                 (bins_of (block_size e)) (cursor_init s)) i = Some c /\
    nth i (fftw_freq e') d0 =
      interpolate (bin_freq (rate e) (block_size e) i) c /\
    separated (rate e) (block_size e) c.
Proof.
  unfold LoadFrequencyAmplification.
  destruct (sample_bins _ _ _ _ _ _) as [q| |] eqn:Hs; try discriminate.
  intros H H0 HN Hlen Hi; inversion H; subst; clear H.
  assert (Hq : (2 * (block_size e ÷ 2) <= block_size e)%Z)
    by (apply Z.mul_quot_le; lia).
  destruct (@sample_bins_stores _ _ _ fuel (rate e) (block_size e)
              (bins_of (block_size e)) (cursor_init s) (fftw_freq e) q i i Hs)
    as (c & Hc & Hst).
  { apply seq_NoDup. }
  { unfold bins_of. rewrite nth_error_nth' with (d := 0%nat)
      by (rewrite length_seq; lia).
    rewrite seq_nth by lia. reflexivity. }
  { lia. }
  exists c. split; [exact Hc|]. split; [exact Hst|].
  assert (Hall := @cursors_at_separated fuel (rate e) (block_size e)
                    (bins_of (block_size e)) (fun _ H => H) (cursor_init s)).
  rewrite Forall_forall in Hall.
  apply Hall; [|apply nth_error_In with (n := i); exact Hc].
  right. unfold bins_of.
  replace (Z.to_nat (block_size e ÷ 2 + 1))
    with (S (Z.to_nat (block_size e ÷ 2))) by lia.
  do 2 eexists. split; [reflexivity|]. exact H0.
Qed.

(** At the end of the text, with a bin that has reached the rate, the
    loop does not end. *)
Lemma scan_while_spinning (r f : D) (fuel : nat) :
  forall c,
  at_nul (config c) = true -> (f >= next_f c) = true -> (f >= r) = true ->
  scan_while fuel r f c = Spinning.
Proof.
  induction fuel as [|fuel IH]; intros c Hnul Hg Hr.
  - simpl. rewrite Hg. reflexivity.
  - rewrite scan_while_nul by assumption. apply IH; assumption.
Qed.

End EndsFacts.

(** ** Window and shift *)

Section WindowFacts.

Context {D : Type} {AR : Arith D} {LM : Libm D}.

Local Open Scope double_scope.

(** The first loop after [n] rounds: the second half holds the weighted
    samples [0 .. n-1], the rest of the buffer is as it was. *)
Lemma window_loop_rounds (N : Z) (n : nat) :
  forall t, (0 <= N)%Z ->
  let h := Z.to_nat (N ÷ 2) in
  let t' := fold_left (window_step N) (seq 0 n) t in
  length t' = length t /\
  (forall j, (j < h \/ h + n <= j)%nat -> nth j t' d0 = nth j t d0) /\
  (forall i, (i < n)%nat -> (i < h)%nat -> (h + i < length t)%nat ->
     nth (h + i) t' d0 = nth i t d0 * weight N i).
Proof.
  induction n as [|n IH]; intros t HN h t'.
  - subst t'; simpl. repeat split; intros; try reflexivity; lia.
  - subst t'. rewrite seq_S, fold_left_app. simpl.
    destruct (IH t HN) as (Hlen & Hout & Hin). fold h in Hout, Hin.
    set (t1 := fold_left (window_step N) (seq 0 n) t) in *.
    assert (Hidx : Z.to_nat (N ÷ 2 + Z.of_nat n) = (h + n)%nat).
    { subst h. assert (0 <= N ÷ 2)%Z by (apply Z.quot_pos; lia). lia. }
    unfold window_step. rewrite Hidx.
    split; [rewrite upd_length; exact Hlen|]. split.
    + intros j Hj. rewrite nth_upd_other by lia. apply Hout. lia.
    + intros i Hi Hih Hil.
      destruct (Nat.eq_dec i n) as [->|Hne].
      * rewrite nth_upd_same by (rewrite Hlen; exact Hil).
        rewrite Hout by lia. reflexivity.
      * rewrite nth_upd_other by lia. apply Hin; lia.
Qed.

(** The second loop: each index of [js] receives the sample at [N - i],
    which no round of the loop stores to. *)
Lemma mirror_rounds (N : Z) (js : list nat) :
  forall t, NoDup js ->
  (forall i, In i js -> ~ In (Z.to_nat (N - Z.of_nat i)) js) ->
  let t' := fold_left (mirror_step N) js t in
  length t' = length t /\
  (forall j, ~ In j js -> nth j t' d0 = nth j t d0) /\
  (forall i, In i js -> (i < length t)%nat ->
     nth i t' d0 = nth (Z.to_nat (N - Z.of_nat i)) t d0).
Proof.
  induction js as [|b js IH]; intros t Hnd Hsrc t'.
  - subst t'; simpl. repeat split; intros; try reflexivity. contradiction.
  - subst t'. simpl.
    inversion Hnd as [|? ? Hnotin Hnd']; subst.
    assert (Hsrc' : forall i, In i js -> ~ In (Z.to_nat (N - Z.of_nat i)) js).
    { intros i Hi Hc. apply (Hsrc i); [right; exact Hi|right; exact Hc]. }
    destruct (IH (mirror_step N t b) Hnd' Hsrc') as (Hlen & Hout & Hin).
    unfold mirror_step in *. rewrite upd_length in Hlen.
    split; [exact Hlen|]. split.
    + intros j Hj. rewrite Hout by (intros Hc; apply Hj; right; exact Hc).
      apply nth_upd_other. intros ->. apply Hj. left. reflexivity.
    + intros i [->|Hi] Hil.
      * rewrite Hout by exact Hnotin. apply nth_upd_same. exact Hil.
      * rewrite Hin by (rewrite ?upd_length; assumption).
        apply nth_upd_other. intros ->.
        apply (Hsrc i); [right; exact Hi|left; reflexivity].
Qed.

(** The three facts about the finished filter, for a buffer of even
    length [N]. *)
Lemma window_and_shift_spec (N : Z) (t : list D) :
  (0 < N)%Z -> Z.even N = true -> length t = Z.to_nat N ->
  let h := Z.to_nat (N ÷ 2) in
  let w := window_and_shift N t in
  nth 0 w d0 = d0 /\
  (forall i, (i < h)%nat -> nth (h + i) w d0 = nth i t d0 * weight N i) /\
  (forall i, (1 <= i < h)%nat -> nth i w d0 = nth (Z.to_nat N - i) w d0).
Proof.
  intros HN Heven Hlen h w.
  assert (HN2 : N = (2 * (N ÷ 2))%Z).
  { apply Z.even_spec in Heven. destruct Heven as [k ->].
    rewrite Z.mul_comm, Z.quot_mul by lia. lia. }
  assert (Hh : Z.to_nat N = (2 * h)%nat) by (subst h; lia).
  assert (Hh1 : (1 <= h)%nat) by lia.
  destruct (@window_loop_rounds N h t ltac:(lia)) as (Hl1 & Hout1 & Hin1).
  fold h in Hout1, Hin1.
  change (fold_left (window_step N) (seq 0 h) t) with (window_loop N t) in *.
  assert (Hjs : rev (seq 1 (Z.to_nat (N ÷ 2 - 1))) = rev (seq 1 (h - 1))).
  { f_equal. f_equal. subst h. lia. }
  assert (Hmem : forall i, In i (rev (seq 1 (h - 1))) <-> (1 <= i < h)%nat).
  { intros i. rewrite <- in_rev, in_seq. lia. }
  destruct (@mirror_rounds N (rev (seq 1 (h - 1))) (window_loop N t))
    as (Hl2 & Hout2 & Hin2).
  { apply NoDup_rev, seq_NoDup. }
  { intros i Hi Hc. apply Hmem in Hi. apply Hmem in Hc. lia. }
  rewrite <- Hjs in Hl2, Hout2, Hin2.
  change (fold_left (mirror_step N) (rev (seq 1 (Z.to_nat (N ÷ 2 - 1))))
            (window_loop N t)) with (mirror_loop N (window_loop N t)) in *.
  subst w. unfold window_and_shift. split; [|split].
  - apply nth_upd_same. rewrite Hl2, Hl1, Hlen. lia.
  - intros i Hi. rewrite nth_upd_other by lia.
    rewrite Hout2 by (rewrite Hjs, Hmem; lia).
    apply Hin1; lia.
  - intros i Hi. rewrite !nth_upd_other by lia.
    rewrite Hin2 by (rewrite ?Hjs, ?Hmem, ?Hl1; lia).
    rewrite (Hout2 (Z.to_nat N - i)%nat) by (rewrite Hjs, Hmem; lia).
    f_equal. lia.
Qed.

End WindowFacts.

(** ** EqualizerLoad, for any arithmetic and any libraries *)

Section LoadFacts.

Context {D : Type} {AR : Arith D} {SC : Scanf D} {LM : Libm D} {FF : Fftw D}.

Variable in_background : Z.

Local Open Scope double_scope.

(** The diagnostics write to the frequency buffer only. *)
Lemma diagnose_frame (e : Equalizer D) (requested_freq : list D) :
  let e' := fst (diagnose in_background e requested_freq) in
  fftw_time e' = fftw_time e /\ rate e' = rate e /\
  block_size e' = block_size e.
Proof. simpl. auto. Qed.

(** The filter depends on the block size and the sampled gains only. *)
Lemma synthesize_time (e : Equalizer D) :
  fftw_time (synthesize e) =
  window_and_shift (block_size e) (hc2r (block_size e) (fftw_freq e)).
Proof. reflexivity. Qed.

(** [EqualizerLoad] by the three ways the sampler can end. *)
Lemma EqualizerLoad_outcome (fuel : nat) (e : Equalizer D) (s : string) :
  EqualizerLoad in_background fuel e s =
  match sample_bins fuel (rate e) (block_size e) (bins_of (block_size e))
          (cursor_init s) (memset_zero (block_size e)) with
  | Sampled q =>
      let e1 := mkEqualizer (rate e) (block_size e) (fftw_time e) q in
      Some (1%Z, fst (diagnose in_background (synthesize e1) q),
            Message in_background (MsgReloading s)
            ++ [] ++ snd (diagnose in_background (synthesize e1) q))
  | Aborted m q =>
      Some (0%Z, mkEqualizer (rate e) (block_size e) (fftw_time e) q,
            Message in_background (MsgReloading s) ++ Message in_background m)
  | Stuck => None
  end.
Proof.
  unfold EqualizerLoad, LoadFrequencyAmplification. simpl.
  destruct (sample_bins _ _ _ _ _ _); reflexivity.
Qed.

(** The sampler never reads the buffers: its verdict and the gains it
    stores into a zeroed buffer are the same whatever the buffers held. *)
Lemma LoadFrequencyAmplification_zeroed (fuel : nat) (e : Equalizer D)
    (s : string) :
  LoadFrequencyAmplification in_background fuel
    (set_freq e (memset_zero (block_size e))) s =
  match sample_bins fuel (rate e) (block_size e) (bins_of (block_size e))
          (cursor_init s) (memset_zero (block_size e)) with
  | Sampled q =>
      Some (1%Z, mkEqualizer (rate e) (block_size e) (fftw_time e) q, [])
  | Aborted m q =>
      Some (0%Z, mkEqualizer (rate e) (block_size e) (fftw_time e) q,
            Message in_background m)
  | Stuck => None
  end.
Proof.
  unfold LoadFrequencyAmplification. simpl.
  destruct (sample_bins _ _ _ _ _ _); reflexivity.
Qed.

(** The debug block reports bins and samples, never a parse error. *)
Lemma debug_output_reports (e : Equalizer D) (requested_freq : list D) m :
  In m (debug_output in_background e requested_freq) ->
  m <> MsgParseError /\ m <> MsgNonincreasing.
Proof.
  unfold debug_output, Message. rewrite in_app_iff, !in_flat_map.
  intros [(i & _ & Hm)|(i & _ & Hm)];
    destruct (in_background =? 0)%Z; simpl in Hm;
    try contradiction; destruct Hm as [<-|Hm]; try contradiction;
    split; discriminate.
Qed.



(** The core of C10 and of the counterexample to C2: a first breakpoint
    above every bin frequency makes the reload succeed whatever follows
    it in the text. *)
Lemma reload_reads_first_pair_only (fuel : nat) (e : Equalizer D) (s : string)
    f1 a1 len1 :
  at_nul s = false ->
  sscanf_lf_lf_n s = Some (f1, a1, len1) ->
  (f1 <= d0) = false ->
  (bin_freq (rate e) (block_size e) 0 >= d0) = true ->
  (forall i, In i (bins_of (block_size e)) ->
             (bin_freq (rate e) (block_size e) i >= f1) = false) ->
  exists e' out,
    EqualizerLoad in_background (S fuel) e s = Some (1%Z, e', out) /\
    ~ In MsgParseError out /\ ~ In MsgNonincreasing out.
Proof.
  intros Hnul Hscan Hpos H0 Hlow.
  rewrite EqualizerLoad_outcome.
  destruct (@sample_bins_first_pair_covers _ _ _ fuel (rate e) (block_size e)
              s (memset_zero (block_size e)) f1 a1 len1)
    as (q' & ->); try assumption.
  do 2 eexists. split; [reflexivity|].
  cbv zeta. unfold diagnose. cbn [snd fst].
  split; intros Hin; apply in_app_iff in Hin;
    destruct Hin as [Hin|Hin];
    try (unfold Message in Hin; destruct (in_background =? 0)%Z;
         simpl in Hin; now intuition discriminate);
    simpl in Hin; apply debug_output_reports in Hin; tauto.
Qed.

(** C10.  The pairs are scanned one at a time, each when a bin frequency
    reaches the frequency read before it.  When the first breakpoint lies
    above every bin frequency, the text after it is never scanned: the
    reload returns 1 and reports no parse error although that text cannot
    be scanned, or holds a frequency that does not increase. *)
Theorem trailing_text_never_scanned (fuel : nat) (e : Equalizer D) (s : string)
    f1 a1 len1 :
  at_nul s = false ->
  sscanf_lf_lf_n s = Some (f1, a1, len1) ->
  (f1 <= d0) = false ->
  (bin_freq (rate e) (block_size e) 0 >= d0) = true ->
  (forall i, In i (bins_of (block_size e)) ->
             (bin_freq (rate e) (block_size e) i >= f1) = false) ->
  at_nul (string_skip len1 s) = false ->
  (sscanf_lf_lf_n (string_skip len1 s) = None \/
   exists f2 a2 len2,
     sscanf_lf_lf_n (string_skip len1 s) = Some (f2, a2, len2) /\
     (f2 <= f1) = true) ->
  exists e' out,
    EqualizerLoad in_background (S fuel) e s = Some (1%Z, e', out) /\
    ~ In MsgParseError out /\ ~ In MsgNonincreasing out.
Proof.
  intros Hnul Hscan Hpos H0 Hlow _ _.
  apply (reload_reads_first_pair_only fuel e s Hnul Hscan Hpos H0 Hlow).
Qed.

End LoadFacts.

(** ** The delivered filter *)

Section FilterFacts.

Context {D : Type} {AR : Arith D} {SC : Scanf D} {LM : Libm D} {FF : Fftw D}.

Variable in_background : Z.

Local Open Scope double_scope.

(** [EqualizerInit] leaves two buffers of [block_size] elements. *)
Lemma EqualizerInit_lengths (r : D) (bs : Z) (junk_time junk_freq : nat -> D) :
  let e := EqualizerInit r bs junk_time junk_freq in
  length (fftw_time e) = Z.to_nat (block_size e) /\
  length (fftw_freq e) = Z.to_nat (block_size e).
Proof.
  simpl. rewrite !length_map, !length_seq. split; reflexivity.
Qed.

(** A successful reload, step by step: the gains sampled into the zeroed
    buffer, the filter made from them, the diagnostics. *)
Lemma successful_reload_steps (fuel : nat) (e e' : Equalizer D) (s : string)
    (out : list (message D)) :
  EqualizerLoad in_background fuel e s = Some (1%Z, e', out) ->
  exists e1,
    LoadFrequencyAmplification in_background fuel
      (set_freq e (memset_zero (block_size e))) s = Some (1%Z, e1, []) /\
    block_size e1 = block_size e /\
    e' = fst (diagnose in_background (synthesize e1) (fftw_freq e1)).
Proof.
  rewrite EqualizerLoad_outcome, LoadFrequencyAmplification_zeroed.
  destruct (sample_bins _ _ _ _ _ _) as [q|m q|]; try discriminate.
  intros H; inversion H; subst; clear H.
  eexists. split; [reflexivity|]. split; reflexivity.
Qed.

(** C4.  After a successful reload with an even block size [N], where
    [raw] is what the inverse transform wrote for the sampled gains:
    sample 0 of the time-domain buffer is [0.0]; sample [N/2 + i] is
    [raw[i] * ((0.5 + 0.5 * cos(M_PI * (i / (N/2)))) / N)] for
    [i < N/2]; and sample [i] equals sample [N - i] for [1 <= i < N/2]. *)
Theorem windowed_filter_shape (fuel : nat) (e e' : Equalizer D) (s : string)
    (out : list (message D)) :
  let N := block_size e in
  let h := Z.to_nat (N ÷ 2) in
  EqualizerLoad in_background fuel e s = Some (1%Z, e', out) ->
  (0 < N)%Z -> Z.even N = true ->
  (forall x, length (hc2r N x) = Z.to_nat N) ->
  exists e1,
    LoadFrequencyAmplification in_background fuel
      (set_freq e (memset_zero N)) s = Some (1%Z, e1, []) /\
    let raw := fftw_time (execute_inverse e1) in
    let t := fftw_time e' in
    nth 0 t d0 = d0 /\
    (forall i, (i < h)%nat ->
       nth (h + i) t d0 =
       nth i raw d0 *
       ((d0_5 + d0_5 * m_cos (M_PI * (of_int (Z.of_nat i) / of_int (N ÷ 2))))
        / of_int N)) /\
    (forall i, (1 <= i < h)%nat -> nth i t d0 = nth (Z.to_nat N - i) t d0).
Proof.
  intros N h Hload HN Heven Hlen.
  destruct (successful_reload_steps _ _ _ Hload) as (e1 & Hs & HN1 & ->).
  exists e1. split; [exact Hs|].
  cbv zeta.
  destruct (diagnose_frame in_background (synthesize e1) (fftw_freq e1))
    as (-> & _ & _).
  rewrite synthesize_time. cbn [execute_inverse fftw_time]. rewrite HN1.
  fold N.
  exact (@window_and_shift_spec _ _ _ N (hc2r N (fftw_freq e1)) HN Heven
           (Hlen _)).
Qed.

(** C6.  On a successful reload the forward transform, the division by [N]
    and the debug block leave the time-domain buffer as the window and
    shift made it; of the equalizer they change the frequency-domain
    buffer only. *)
Theorem diagnostics_keep_filter (fuel : nat) (e e' : Equalizer D) (s : string)
    (out : list (message D)) :
  EqualizerLoad in_background fuel e s = Some (1%Z, e', out) ->
  exists e1 filter,
    LoadFrequencyAmplification in_background fuel
      (set_freq e (memset_zero (block_size e))) s = Some (1%Z, e1, []) /\
    filter = synthesize e1 /\
    e' = fst (diagnose in_background filter (fftw_freq e1)) /\
    fftw_time e' = fftw_time filter /\
    rate e' = rate filter /\ block_size e' = block_size filter.
Proof.
  intros Hload.
  destruct (successful_reload_steps _ _ _ Hload) as (e1 & Hs & _ & ->).
  exists e1, (synthesize e1). split; [exact Hs|]. split; [reflexivity|].
  split; [reflexivity|].
  apply diagnose_frame.
Qed.

(** C7.  Whatever the text and the equalizer, when [EqualizerLoad]
    returns, a second call with the same text returns the same value and
    leaves the same time-domain buffer as the first. *)
Theorem reload_twice_same_filter (fuel : nat) (e : Equalizer D) (s : string) :
  match EqualizerLoad in_background fuel e s with
  | Some (ok1, e1, _) =>
      match EqualizerLoad in_background fuel e1 s with
      | Some (ok2, e2, _) => ok2 = ok1 /\ fftw_time e2 = fftw_time e1
      | None => False
      end
  | None => True
  end.
Proof.
  rewrite EqualizerLoad_outcome.
  destruct (sample_bins _ _ _ _ _ _) as [q|m q|] eqn:Hs; [| |exact I].
  - cbv beta iota zeta.
    set (e1 := fst (diagnose _ _ _)).
    assert (Hr : rate e1 = rate e) by reflexivity.
    assert (Hb : block_size e1 = block_size e) by reflexivity.
    rewrite EqualizerLoad_outcome, Hr, Hb, Hs.
    split; reflexivity.
  - cbv beta iota.
    rewrite EqualizerLoad_outcome. cbn [rate block_size]. rewrite Hs.
    split; reflexivity.
Qed.

End FilterFacts.

(** ** The sampler in exact arithmetic *)

Section IdealSampler.

Import Ideal.

Context {SC : Scanf R}.

Local Open Scope R_scope.

Lemma Rgeb_true (x y : R) : y <= x -> Rgeb x y = true.
Proof. intros H; unfold Rgeb; destruct (Rge_dec x y); [reflexivity|lra]. Qed.

Lemma Rgeb_false (x y : R) : x < y -> Rgeb x y = false.
Proof. intros H; unfold Rgeb; destruct (Rge_dec x y); [lra|reflexivity]. Qed.

Lemma Rgeb_spec (x y : R) :
  (Rgeb x y = true /\ y <= x) \/ (Rgeb x y = false /\ x < y).
Proof.
  destruct (Rle_lt_dec y x); [left|right];
    auto using Rgeb_true, Rgeb_false.
Qed.

Lemma Rleb_true (x y : R) : x <= y -> Rleb x y = true.
Proof. intros H; unfold Rleb; destruct (Rle_dec x y); [reflexivity|lra]. Qed.

Lemma Rleb_false (x y : R) : y < x -> Rleb x y = false.
Proof. intros H; unfold Rleb; destruct (Rle_dec x y); [lra|reflexivity]. Qed.

Lemma Rleb_spec (x y : R) :
  (Rleb x y = true /\ x <= y) \/ (Rleb x y = false /\ y < x).
Proof.
  destruct (Rle_lt_dec x y); [left|right];
    auto using Rleb_true, Rleb_false.
Qed.

(** Bin 0 is at frequency 0. *)
Lemma bin_freq_0 (r : R) (N : Z) : bin_freq r N 0 = 0.
Proof. unfold bin_freq; simpl. apply Rmult_0_r. Qed.

(** The bins lie in [0, rate/2]. *)
Lemma bin_freq_range (r : R) (N : Z) (i : nat) :
  0 < r -> (0 < N)%Z -> (Z.of_nat i <= N ÷ 2)%Z ->
  0 <= bin_freq r N i <= r / 2.
Proof.
  intros Hr HN Hi. unfold bin_freq; simpl.
  assert (HNr : 0 < IZR N) by (apply IZR_lt; exact HN).
  assert (Hi0 : 0 <= IZR (Z.of_nat i)) by (apply IZR_le; lia).
  assert (Hi2 : 2 * IZR (Z.of_nat i) <= IZR N).
  { rewrite <- mult_IZR. apply IZR_le.
    assert (2 * (N ÷ 2) <= N)%Z by (apply Z.mul_quot_le; lia). lia. }
  assert (Hx : 0 < r / IZR N) by (apply Rdiv_lt_0_compat; assumption).
  assert (Hrn : r / IZR N * IZR N = r) by (field; lra).
  split; [apply Rmult_le_pos; lra|]. nra.
Qed.

Lemma bin_freq_below_rate (r : R) (N : Z) (i : nat) :
  0 < r -> (0 < N)%Z -> (Z.of_nat i <= N ÷ 2)%Z -> bin_freq r N i < r.
Proof.
  intros Hr HN Hi. pose proof (bin_freq_range i Hr HN Hi). lra.
Qed.

Lemma in_bins_of (N : Z) (i : nat) :
  In i (bins_of N) <-> (Z.of_nat i <= N ÷ 2)%Z.
Proof. unfold bins_of. rewrite in_seq. lia. Qed.

(** With equal gains on both sides the interpolation is that gain. *)
Lemma interpolate_level (f : R) (c : cursor R) :
  prev_amp c = next_amp c -> interpolate f c = next_amp c.
Proof.
  intros H. unfold interpolate; simpl. rewrite H.
  replace (next_amp c - next_amp c) with 0 by lra.
  rewrite Rmult_0_r. lra.
Qed.

End IdealSampler.

(** ** Comparisons in exact arithmetic *)

Section IdealEquality.

Import Ideal.

Context {SC : Scanf R}.

Local Open Scope R_scope.

Lemma Reqb_true (x y : R) : x = y -> Reqb x y = true.
Proof.
  intros H; unfold Reqb; destruct (Req_dec_T x y); [reflexivity|tauto].
Qed.

Lemma Reqb_false (x y : R) : x <> y -> Reqb x y = false.
Proof.
  intros H; unfold Reqb; destruct (Req_dec_T x y); [tauto|reflexivity].
Qed.

End IdealEquality.

(** ** The inverse transform of sampled gains *)

Section IdealTransform.

Import Ideal.

Context {SC : Scanf R}.

Local Open Scope R_scope.

Lemma Rsum_ext (f g : nat -> R) (js : list nat) :
  (forall j, In j js -> f j = g j) -> Rsum f js = Rsum g js.
Proof.
  induction js as [|j js IH]; intros H; simpl; [reflexivity|].
  rewrite (H j) by (left; reflexivity).
  rewrite IH by (intros k Hk; apply H; right; exact Hk).
  reflexivity.
Qed.

(** [cos (2 pi j (n - k) / n) = cos (2 pi j k / n)] *)
Lemma cos_angle_mirror (n j k : nat) :
  (0 < n)%nat -> (k <= n)%nat ->
  cos (angle n j (n - k)) = cos (angle n j k).
Proof.
  intros Hn Hk. unfold angle. rewrite minus_INR by exact Hk.
  assert (INR n <> 0) by (apply not_0_INR; lia).
  replace (2 * PI * INR j * (INR n - INR k) / INR n)
    with (- (2 * PI * INR j * INR k / INR n) + 2 * INR j * PI)
    by (field; assumption).
  rewrite cos_period. apply cos_neg.
Qed.

(** [cos (pi (2h - k)) = cos (pi k)] *)
Lemma cos_nyquist_mirror (h k : nat) :
  (k <= 2 * h)%nat -> cos (PI * INR (2 * h - k)) = cos (PI * INR k).
Proof.
  intros Hk.
  assert (E : PI * INR (2 * h - k) = - (PI * INR k) + 2 * INR h * PI).
  { rewrite minus_INR by exact Hk. rewrite mult_INR. simpl (INR 2). ring. }
  rewrite E, cos_period. apply cos_neg.
Qed.

(** With nothing in the slots of the imaginary parts, the output of the
    inverse transform of even size reads the same from both ends. *)
Lemma hc2r_at_mirror (h : nat) (x : list R) (k : nat) :
  (1 <= h)%nat -> (k <= 2 * h)%nat ->
  (forall j, (h < j < 2 * h)%nat -> nth j x 0 = 0) ->
  hc2r_at (2 * h) x (2 * h - k) = hc2r_at (2 * h) x k.
Proof.
  intros Hh Hk Hzero. unfold hc2r_at.
  assert (Heven : Nat.even (2 * h) = true)
    by (apply Nat.even_spec; exists h; reflexivity).
  rewrite Heven, cos_nyquist_mirror by exact Hk.
  f_equal. f_equal. apply Rsum_ext. intros j Hj. apply in_seq in Hj.
  assert (Hhalf : ((2 * h - 1) / 2 = h - 1)%nat).
  { symmetry. apply Nat.div_unique with (r := 1%nat); lia. }
  rewrite Hhalf in Hj.
  rewrite (Hzero (2 * h - j)%nat) by lia.
  rewrite cos_angle_mirror by lia. ring.
Qed.

Lemma nth_map_seq (f : nat -> R) (n i : nat) :
  (i < n)%nat -> nth i (map f (seq 0 n)) 0 = f i.
Proof.
  intros Hi. rewrite nth_indep with (d' := f 0%nat)
    by (rewrite length_map, length_seq; exact Hi).
  rewrite map_nth, seq_nth by exact Hi. reflexivity.
Qed.

(** C5.  For gains sampled into the zeroed frequency-domain buffer of an
    even block size [N] (bins [0 .. N/2] stored, the slots above [N/2]
    still 0), the output [raw] of the inverse transform, before the
    window, satisfies [raw[i] = raw[N - i]] for [1 <= i <= N/2 - 1].  The
    transform is FFTW's HC2R as its manual defines it, in exact
    arithmetic. *)
Theorem inverse_transform_symmetric (bg : Z) (fuel : nat)
    (e e1 : Equalizer R) (s : string) (msgs : list (message R)) (i : nat) :
  let N := block_size e in
  (0 < N)%Z -> Z.even N = true ->
  LoadFrequencyAmplification bg fuel (set_freq e (memset_zero N)) s
    = Some (1%Z, e1, msgs) ->
  let raw := fftw_time (execute_inverse e1) in
  (1 <= i < Z.to_nat (N ÷ 2))%nat ->
  nth i raw 0 = nth (Z.to_nat N - i) raw 0.
Proof.
  intros N HN Heven Hload raw Hi. subst raw N.
  rewrite LoadFrequencyAmplification_zeroed in Hload.
  set (N := block_size e) in *.
  destruct (sample_bins _ _ _ _ _ _) as [q| |] eqn:Hs; try discriminate.
  inversion Hload; subst e1; clear Hload.
  cbn [execute_inverse fftw_time block_size fftw_freq hc2r R_fftw].
  unfold hc2r_ref.
  set (h := Z.to_nat (N ÷ 2)) in *.
  assert (Hn : Z.to_nat N = (2 * h)%nat).
  { apply Z.even_spec in Heven. destruct Heven as [k Hk].
    subst h. rewrite Hk, Z.mul_comm, Z.quot_mul by lia. lia. }
  rewrite Hn, !nth_map_seq by lia.
  symmetry. apply hc2r_at_mirror; try lia.
  intros j Hj.
  transitivity (nth j (memset_zero (D:=R) N) 0).
  - apply (@sample_bins_frame R R_arith SC fuel (rate e) N (bins_of N)
             (cursor_init s) (memset_zero N) q j (or_introl Hs)).
    rewrite in_bins_of. fold h. subst h. lia.
  - apply (nth_repeat_any (A:=R)).
Qed.

End IdealTransform.

(** ** Text that cannot be scanned *)

Section Unscannable.

Context {D : Type} {AR : Arith D} {SC : Scanf D} {LM : Libm D} {FF : Fftw D}.

Variable in_background : Z.

Local Open Scope double_scope.

(** A text whose head is not a pair is rejected at bin 0, with the
    frequency-domain buffer zeroed and nothing stored yet. *)
Lemma reload_fails_unscannable (fuel : nat) (e : Equalizer D) (s : string) :
  at_nul s = false ->
  sscanf_lf_lf_n s = None ->
  (bin_freq (rate e) (block_size e) 0 >= d0) = true ->
  (0 <= block_size e ÷ 2)%Z ->
  EqualizerLoad in_background (S fuel) e s =
  Some (0%Z,
        mkEqualizer (rate e) (block_size e) (fftw_time e)
          (memset_zero (block_size e)),
        Message in_background (MsgReloading s)
        ++ Message in_background MsgParseError).
Proof.
  intros Hnul Hscan H0 HN. rewrite EqualizerLoad_outcome.
  unfold bins_of.
  replace (Z.to_nat (block_size e ÷ 2 + 1))
    with (S (Z.to_nat (block_size e ÷ 2))) by lia.
  cbn [seq sample_bins].
  rewrite (@scan_while_unscannable _ _ _ fuel (rate e) _ (cursor_init s))
    by assumption.
  reflexivity.
Qed.

End Unscannable.

(** ** Runs in exact arithmetic *)

Section IdealRuns.

Import Ideal.

Local Open Scope string_scope.
Local Open Scope R_scope.

Lemma hc2r_ref_length (n : Z) (x : list R) :
  length (hc2r_ref n x) = Z.to_nat n.
Proof. unfold hc2r_ref. rewrite length_map, length_seq. reflexivity. Qed.



(** Every bin of [eq_48000_8] lies below 30000. *)
Lemma bins_below_30000 (i : nat) :
  In i (bins_of 8) -> dge (bin_freq 48000 8 i) 30000 = false.
Proof.
  intros Hi. apply Rgeb_false.
  pose proof (@bin_freq_range 48000 8 i ltac:(lra) ltac:(lia)
                (proj1 (in_bins_of 8 i) Hi)).
  simpl in *. lra.
Qed.

Lemma bin_0_reaches_0 (r : R) (N : Z) : dge (bin_freq r N 0) d0 = true.
Proof. apply Rgeb_true. rewrite bin_freq_0. simpl. lra. Qed.

(** A reload of [eq_48000_8] that succeeds. *)
Lemma reload_30000_2 :
  exists e' out, EqualizerLoad 0 1 eq_48000_8 "30000 2" = Some (1%Z, e', out).
Proof.
  destruct (@reload_reads_first_pair_only R _ _ _ _ 0%Z 0 eq_48000_8
              "30000 2" 30000 2 7)
    as (e' & out & H & _); try reflexivity.
  - apply Rleb_false. simpl. lra.
  - apply bin_0_reaches_0.
  - exact bins_below_30000.
  - exists e', out. exact H.
Qed.



(** C4 for the reload of ["30000 2"] at rate 48000, block size 8. *)
Lemma windowed_filter_shape_witness :
  exists e' out e1,
    EqualizerLoad 0 1 eq_48000_8 "30000 2" = Some (1%Z, e', out) /\
    LoadFrequencyAmplification 0 1 (set_freq eq_48000_8 (memset_zero 8))
      "30000 2" = Some (1%Z, e1, []) /\
    let raw := fftw_time (execute_inverse e1) in
    let t := fftw_time e' in
    nth 0 t d0 = d0 /\
    (forall i, (i < 4)%nat ->
       nth (4 + i) t d0 =
       dmul (nth i raw d0)
         (ddiv (dadd d0_5
                  (dmul d0_5
                     (m_cos (dmul M_PI
                               (ddiv (of_int (Z.of_nat i)) (of_int (8 ÷ 2)))))))
            (of_int 8))) /\
    (forall i, (1 <= i < 4)%nat -> nth i t d0 = nth (8 - i) t d0).
Proof.
  destruct reload_30000_2 as (e' & out & H).
  destruct (@windowed_filter_shape R _ _ _ _ 0%Z 1 eq_48000_8 e' "30000 2"
              out H) as (e1 & Hs & Hshape).
  - simpl. lia.
  - reflexivity.
  - intros x. apply hc2r_ref_length.
  - exists e', out, e1. split; [exact H|]. split; [exact Hs|]. exact Hshape.
Defined.

(** C5 for the gains of ["30000 2"], samples 1 and 7 of 8. *)
Lemma inverse_transform_symmetric_witness :
  exists e1,
    LoadFrequencyAmplification 0 1 (set_freq eq_48000_8 (memset_zero 8))
      "30000 2" = Some (1%Z, e1, []) /\
    nth 1 (fftw_time (execute_inverse e1)) 0
    = nth 7 (fftw_time (execute_inverse e1)) 0.
Proof.
  destruct reload_30000_2 as (e' & out & H).
  destruct (@successful_reload_steps R _ _ _ _ 0%Z 1 eq_48000_8 e'
              "30000 2" out H) as (e1 & Hs & _).
  exists e1. split; [exact Hs|].
  apply (@inverse_transform_symmetric _ 0%Z 1 eq_48000_8 e1 "30000 2" [] 1).
  - simpl. lia.
  - reflexivity.
  - exact Hs.
  - simpl. lia.
Defined.

(** C6 for the reload of ["30000 2"] at rate 48000, block size 8. *)
Lemma diagnostics_keep_filter_witness :
  exists e' out e1 filter,
    EqualizerLoad 0 1 eq_48000_8 "30000 2" = Some (1%Z, e', out) /\
    LoadFrequencyAmplification 0 1
      (set_freq eq_48000_8 (memset_zero (block_size eq_48000_8))) "30000 2"
      = Some (1%Z, e1, []) /\
    filter = synthesize e1 /\
    e' = fst (diagnose 0 filter (fftw_freq e1)) /\
    fftw_time e' = fftw_time filter /\
    rate e' = rate filter /\ block_size e' = block_size filter.
Proof.
  destruct reload_30000_2 as (e' & out & H).
  destruct (@diagnostics_keep_filter R _ _ _ _ 0%Z 1 eq_48000_8 e' "30000 2"
              out H) as (e1 & filter & Hkeep).
  exists e', out, e1, filter. split; [exact H|exact Hkeep].
Defined.

(** C10 at rate 48000, block size 8: ["garbage"] after (30000, 2) is not
    read. *)
Lemma trailing_text_never_scanned_witness :
  exists e' out,
    EqualizerLoad 0 1 eq_48000_8 "30000 2 garbage" = Some (1%Z, e', out) /\
    ~ In MsgParseError out /\ ~ In MsgNonincreasing out.
Proof.
  apply (@trailing_text_never_scanned R _ _ _ _ 0%Z 0 eq_48000_8
           "30000 2 garbage" 30000 2 8); try reflexivity.
  - apply Rleb_false. simpl. lra.
  - apply bin_0_reaches_0.
  - exact bins_below_30000.
  - left. reflexivity.
Defined.

End IdealRuns.

(** ** Runs on binary64 *)

Section Binary64Runs.

Import Binary64.

Local Open Scope string_scope.

(** The scenario of the specification: ["6000 2.0"] gives gain 2.0 at the
    bins 0, 6000, 12000, 18000 and 24000 Hz. *)
Example sample_6000_2 :
  LoadFrequencyAmplification 0 2 feq_48000_8 "6000 2.0"
  = Some (1%Z,
          set_freq feq_48000_8
            [2; 2; 2; 2; 2; 0; 0; 0]%float,
          []).
Proof. vm_compute. reflexivity. Qed.

(** The empty text gives gain 1.0 at every bin. *)
Example sample_empty :
  LoadFrequencyAmplification 0 1 feq_48000_8 ""
  = Some (1%Z, set_freq feq_48000_8 [1; 1; 1; 1; 1; 0; 0; 0]%float, []).
Proof. vm_compute. reflexivity. Qed.

(** A last breakpoint above the Nyquist frequency is interpolated toward:
    bin 4 holds 3.5, not 4.0. *)
Example sample_above_nyquist :
  LoadFrequencyAmplification 0 2 feq_48000_8 "6000 2.0 30000 4.0"
  = Some (1%Z,
          set_freq feq_48000_8 [2; 2; 2.5; 3; 3.5; 0; 0; 0]%float,
          []).
Proof. vm_compute. reflexivity. Qed.

(** A frequency that does not increase is met at bin 1, after bin 0 has
    been stored. *)
Example sample_nonincreasing :
  LoadFrequencyAmplification 0 2 feq_48000_8 "6000 2.0 3000 4.0"
  = Some (0%Z,
          set_freq feq_48000_8 [2; 0; 0; 0; 0; 0; 0; 0]%float,
          [MsgNonincreasing]).
Proof. vm_compute. reflexivity. Qed.

(** With the first breakpoint above every bin the rest is not read. *)
Example sample_trailing_text :
  LoadFrequencyAmplification 0 1 feq_48000_8 "30000 2.5 3000 4.0 xx"
  = Some (1%Z,
          set_freq feq_48000_8 [2.5; 2.5; 2.5; 2.5; 2.5; 0; 0; 0]%float,
          []).
Proof. vm_compute. reflexivity. Qed.

End Binary64Runs.

(** ** Order and subtraction on binary64 *)

Section Binary64Order.

Import Binary64.

Local Open Scope Z_scope.

Lemma digits2_size (m : positive) : digits2_pos m = Pos.size m.
Proof. induction m; simpl; congruence. Qed.

Lemma digits2_iter (m d : positive) :
  Zpos (digits2_pos (Pos.iter xO m d)) = Zpos (digits2_pos m) + Zpos d.
Proof.
  induction d as [|d IH] using Pos.peano_ind.
  - simpl. lia.
  - rewrite Pos.iter_succ. simpl digits2_pos. lia.
Qed.

Lemma iter_xO_inj (d m m' : positive) :
  Pos.iter xO m d = Pos.iter xO m' d -> m = m'.
Proof.
  induction d as [|d IH] using Pos.peano_ind.
  - simpl. congruence.
  - rewrite !Pos.iter_succ. intros H. injection H as H. auto.
Qed.

(** The exponent of a valid finite number. *)
Lemma bounded_canonical (m : positive) (e : Z) :
  SpecFloat.bounded prec emax m e = true ->
  e = Z.max (Zpos (digits2_pos m) + e - prec) emin.
Proof.
  unfold SpecFloat.bounded, canonical_mantissa, fexp. intros H.
  apply andb_prop in H. destruct H as [H _]. apply Z.eqb_eq in H.
  symmetry. exact H.
Qed.

(** The digits of the mantissa once aligned to a lower exponent. *)
Lemma shl_align_digits (m : positive) (e ez : Z) :
  ez <= e ->
  Zpos (digits2_pos (fst (shl_align m e ez))) = Zpos (digits2_pos m) + (e - ez).
Proof.
  intros H. unfold shl_align.
  destruct (ez - e) as [|d|d] eqn:Hd; cbn [fst]; try lia.
  rewrite digits2_iter. lia.
Qed.

Lemma shl_align_same (m : positive) (e : Z) : fst (shl_align m e e) = m.
Proof. unfold shl_align. rewrite Z.sub_diag. reflexivity. Qed.


(** Shifting right by fewer places than the mantissa has digits leaves
    a mantissa. *)
Lemma iter_shr_1 (p : positive) :
  forall m r s,
  Zpos p < Zpos (digits2_pos m) ->
  exists m' r' s',
    SpecFloat.iter_pos shr_1 p (Build_shr_record (Zpos m) r s)
    = Build_shr_record (Zpos m') r' s' /\
    Zpos (digits2_pos m') = Zpos (digits2_pos m) - Zpos p.
Proof.
  assert (H1 : forall m r s, 1 < Zpos (digits2_pos m) ->
            exists m' r' s',
              shr_1 (Build_shr_record (Zpos m) r s)
              = Build_shr_record (Zpos m') r' s' /\
              Zpos (digits2_pos m') = Zpos (digits2_pos m) - 1).
  { intros [m|m|] r s H; simpl in H; try lia;
      do 3 eexists; (split; [reflexivity|cbn [digits2_pos]; lia]). }
  induction p as [p IH|p IH|]; intros m r s H; cbn [SpecFloat.iter_pos].
  - destruct (H1 m r s) as (m1 & r1 & s1 & -> & E1); [lia|].
    destruct (IH m1 r1 s1) as (m2 & r2 & s2 & -> & E2); [lia|].
    destruct (IH m2 r2 s2) as (m3 & r3 & s3 & -> & E3); [lia|].
    exists m3, r3, s3. split; [reflexivity|lia].
  - destruct (IH m r s) as (m2 & r2 & s2 & -> & E2); [lia|].
    destruct (IH m2 r2 s2) as (m3 & r3 & s3 & -> & E3); [lia|].
    exists m3, r3, s3. split; [reflexivity|lia].
  - destruct (H1 m r s) as (m1 & r1 & s1 & -> & E1); [lia|].
    exists m1, r1, s1. split; [reflexivity|lia].
Qed.

(** [shr_fexp] leaves a mantissa when the exponent is not below [emin]. *)
Lemma shr_fexp_mantissa (m : positive) (e : Z) (l : location) :
  emin <= e ->
  exists m' r' s' e',
    shr_fexp prec emax (Zpos m) e l = (Build_shr_record (Zpos m') r' s', e') /\
    emin <= e'.
Proof.
  intros He. unfold shr_fexp, fexp. cbn [Zdigits2].
  assert (Hrec : exists r s, shr_record_of_loc (Zpos m) l
                             = Build_shr_record (Zpos m) r s).
  { destruct l as [|[]]; do 2 eexists; reflexivity. }
  destruct Hrec as (r & s & ->).
  destruct (Z.max (Zpos (digits2_pos m) + e - prec) emin - e)
    as [|n|n] eqn:Hn; cbn [shr];
    try (exists m, r, s, e; split; [reflexivity|exact He]).
  destruct (@iter_shr_1 n m r s) as (m' & r' & s' & -> & _).
  { unfold prec in *. lia. }
  exists m', r', s', (e + Zpos n). split; [reflexivity|lia].
Qed.

(** Rounding a mantissa at an exponent not below [emin] gives a number
    of the same sign, finite or infinite: never zero, never NaN. *)
Lemma binary_round_aux_nonzero (sx : bool) (m : positive) (e : Z)
    (l : location) :
  emin <= e ->
  (exists m' e', binary_round_aux prec emax sx (Zpos m) e l
                 = S754_finite sx m' e') \/
  binary_round_aux prec emax sx (Zpos m) e l = S754_infinity sx.
Proof.
  intros He. unfold binary_round_aux.
  destruct (@shr_fexp_mantissa m e l He) as (m1 & r1 & s1 & e1 & -> & He1).
  cbn [shr_m].
  assert (Hr : exists m2, round_nearest_even (Zpos m1)
                 (loc_of_shr_record (Build_shr_record (Zpos m1) r1 s1))
               = Zpos m2).
  { destruct r1, s1; cbn [loc_of_shr_record round_nearest_even];
      try destruct (Z.even (Zpos m1)); eexists; reflexivity. }
  destruct Hr as (m2 & ->).
  destruct (@shr_fexp_mantissa m2 e1 loc_Exact He1) as (m3 & r3 & s3 & e3 & -> & _).
  cbn [shr_m].
  destruct (e3 <=? emax - prec); [left; eauto|right; reflexivity].
Qed.

Lemma binary_round_nonzero (sx : bool) (m : positive) (e : Z) :
  emin <= e ->
  (exists m' e', binary_round prec emax sx m e = S754_finite sx m' e') \/
  binary_round prec emax sx m e = S754_infinity sx.
Proof.
  intros He. unfold binary_round.
  destruct (shl_align m e _) as [mz ez] eqn:Ha.
  apply binary_round_aux_nonzero.
  unfold shl_align in Ha.
  destruct (fexp prec emax (Zpos (digits2_pos m) + e) - e) eqn:Hd;
    inversion Ha; subst; try exact He.
  unfold fexp. lia.
Qed.


(** More digits, greater mantissa. *)
Lemma digits2_lt (a b : positive) :
  Zpos (digits2_pos b) < Zpos (digits2_pos a) -> Zpos b < Zpos a.
Proof.
  rewrite (digits2_size a), (digits2_size b). intros H.
  pose proof (Pos.size_gt b) as Hb. pose proof (Pos.size_le a) as Ha.
  apply Pos2Z.pos_lt_pos in Hb. apply Pos2Z.pos_le_pos in Ha.
  rewrite Pos2Z.inj_pow in Hb, Ha.
  assert (Hs : 2 ^ Z.succ (Zpos (Pos.size b)) <= 2 ^ Zpos (Pos.size a))
    by (apply Z.pow_le_mono_r; lia).
  rewrite Z.pow_succ_r in Hs by lia. lia.
Qed.

(** The difference of two valid finite numbers, the first greater than
    the second, is positive: finite or infinite. *)
Lemma SFsub_finite_positive (sx sy : bool) (mx my : positive) (ex ey : Z) :
  SpecFloat.bounded prec emax mx ex = true -> SpecFloat.bounded prec emax my ey = true ->
  SFleb (S754_finite sx mx ex) (S754_finite sy my ey) = false ->
  (exists m e, SF64sub (S754_finite sx mx ex) (S754_finite sy my ey)
               = S754_finite false m e) \/
  SF64sub (S754_finite sx mx ex) (S754_finite sy my ey) = S754_infinity false.
Proof.
  intros Hx Hy Hle.
  apply bounded_canonical in Hx, Hy.
  unfold SF64sub, SFsub. cbv zeta.
  set (ez := Z.min ex ey).
  pose proof (@shl_align_digits mx ex ez ltac:(lia)) as Da.
  pose proof (@shl_align_digits my ey ez ltac:(lia)) as Db.
  assert (Hez : emin <= ez) by lia.
  assert (Hsame : ex = ey -> fst (shl_align mx ex ez) = mx /\
                             fst (shl_align my ey ez) = my).
  { intros E. subst ez. rewrite <- E, Z.min_id, !shl_align_same. auto. }
  set (a := fst (shl_align mx ex ez)) in *.
  set (b := fst (shl_align my ey ez)) in *.
  assert (Hgt : cond_Zopp sy (Zpos b) < cond_Zopp sx (Zpos a)).
  { unfold SFleb, SFcompare in Hle. unfold prec in *.
    change (Pos.compare_cont Eq mx my) with (Pos.compare mx my) in Hle.
    destruct sx, sy; cbn [cond_Zopp]; try discriminate; try lia;
      destruct (Z.compare_spec ex ey) as [E|E|E]; try discriminate;
      try (destruct (Hsame E) as [-> ->];
           destruct (Pos.compare_spec mx my); try discriminate; lia).
    - assert (Zpos a < Zpos b); [|lia].
      apply digits2_lt. lia.
    - assert (Zpos b < Zpos a); [|lia].
      apply digits2_lt. lia. }
  destruct (cond_Zopp sx (Zpos a) - cond_Zopp sy (Zpos b)) as [|p|p] eqn:Hd;
    try lia.
  cbn [binary_normalize]. apply binary_round_nonzero. exact Hez.
Qed.

(** When [x <= y] is false the difference [x - y] is not [<= 0]: it is
    positive, or NaN when [x] or [y] is. *)
Lemma SFsub_positive (x y : spec_float) :
  valid_binary x = true -> valid_binary y = true ->
  SFleb x y = false ->
  SFleb (SF64sub x y) (S754_zero false) = false.
Proof.
  intros Hx Hy Hle.
  destruct x as [sx|sx| |sx mx ex], y as [sy|sy| |sy my ey];
    try (destruct (@SFsub_finite_positive sx sy mx my ex ey Hx Hy Hle)
           as [(m & e & ->)| ->]; reflexivity);
    try destruct sx; try destruct sy; try discriminate; reflexivity.
Qed.

Lemma sub_positive (x y : float) :
  (x <=? y)%float = false -> (x - y <=? 0)%float = false.
Proof.
  rewrite !leb_spec, sub_spec. apply SFsub_positive; apply Prim2SF_valid.
Qed.


Lemma SFleb_trans (x y z : spec_float) :
  SFleb x y = true -> SFleb y z = true -> SFleb x z = true.
Proof.
  unfold SFleb, SFcompare.
  destruct x as [sx|sx| |sx mx ex], y as [sy|sy| |sy my ey],
           z as [sz|sz| |sz mz ez];
    try destruct sx; try destruct sy; try destruct sz;
    try discriminate; try reflexivity;
    change (Pos.compare_cont Eq mx my) with (Pos.compare mx my);
    change (Pos.compare_cont Eq my mz) with (Pos.compare my mz);
    change (Pos.compare_cont Eq mx mz) with (Pos.compare mx mz);
    destruct (Z.compare_spec ex ey); try discriminate;
    destruct (Z.compare_spec ey ez); try discriminate;
    destruct (Z.compare_spec ex ez); try reflexivity; try lia;
    destruct (Pos.compare_spec mx my); try discriminate;
    destruct (Pos.compare_spec my mz); try discriminate;
    destruct (Pos.compare_spec mx mz); try reflexivity; try lia;
    intros; subst; try lia; try discriminate.
Qed.

(** A value that has reached [y] and not [x]: then [x <= y] is false. *)
Lemma leb_between (x y g : float) :
  (y <=? g)%float = true -> (x <=? g)%float = false ->
  (x <=? y)%float = false.
Proof.
  rewrite !leb_spec. intros Hy Hx.
  destruct (SFleb (Prim2SF x) (Prim2SF y)) eqn:H; [|reflexivity].
  rewrite (SFleb_trans _ _ _ H Hy) in Hx. discriminate.
Qed.

Lemma SF64sub_diag (s : bool) (m : positive) (e : Z) :
  SF64sub (S754_finite s m e) (S754_finite s m e) = S754_zero false.
Proof.
  unfold SF64sub, SFsub. cbv zeta. rewrite Z.sub_diag. reflexivity.
Qed.

(** On binary64 the interpolation between two equal gains is exact
    whenever the weight is finite and the gain is finite and not
    [-0.0]. *)
Lemma level_exact_finite (q a : float) :
  finite q = true -> plain a = true -> level_exact q a.
Proof.
  unfold level_exact, finite, plain.
  cbn [dadd dmul dsub float_arith].
  intros Hq Ha. apply Prim2SF_inj.
  rewrite add_spec, mul_spec, sub_spec.
  destruct (Prim2SF a) as [sa|sa| |sa ma ea]; try discriminate;
    destruct (Prim2SF q) as [sq|sq| |sq mq eq]; try discriminate;
    try rewrite SF64sub_diag;
    try (destruct sa; try discriminate; destruct sq; reflexivity);
    reflexivity.
Qed.

End Binary64Order.

(** ** Division on binary64 *)

Section Binary64Division.

Import Binary64.

Local Open Scope Z_scope.

(** The digits of a number below a power of two. *)
Lemma Zdigits2_bound (q k : Z) : 0 <= q < 2 ^ k -> 0 <= k -> Zdigits2 q <= k.
Proof.
  intros [Hq0 Hq] Hk. destruct q as [|p|p]; cbn [Zdigits2]; try lia.
  rewrite (digits2_size p).
  pose proof (Pos.size_le p) as Hp. apply Pos2Z.pos_le_pos in Hp.
  rewrite Pos2Z.inj_pow in Hp.
  destruct (Z_lt_le_dec k (Zpos (Pos.size p))) as [Hlt|]; [|assumption].
  assert (Hs : 2 ^ Z.succ k <= 2 ^ Zpos (Pos.size p))
    by (apply Z.pow_le_mono_r; lia).
  rewrite Z.pow_succ_r in Hs by lia. lia.
Qed.

Lemma Zdigits2_upper (p : positive) : Zpos p < 2 ^ Zpos (digits2_pos p).
Proof.
  rewrite (digits2_size p). pose proof (Pos.size_gt p) as H.
  apply Pos2Z.pos_lt_pos in H. rewrite Pos2Z.inj_pow in H. exact H.
Qed.

Lemma Zdigits2_lower (p : positive) : 2 ^ (Zpos (digits2_pos p) - 1) <= Zpos p.
Proof.
  rewrite (digits2_size p). pose proof (Pos.size_le p) as H.
  apply Pos2Z.pos_le_pos in H. rewrite Pos2Z.inj_pow in H.
  replace (Zpos (Pos.size p)) with (Z.succ (Zpos (Pos.size p) - 1)) in H
    by lia.
  rewrite Z.pow_succ_r in H by lia. lia.
Qed.

Lemma Zdigits2_nonneg (m : Z) : 0 <= Zdigits2 m.
Proof. destruct m; cbn [Zdigits2]; lia. Qed.

(** One place to the right. *)
Lemma shr_1_digits (mrs : shr_record) :
  0 <= shr_m mrs ->
  0 <= shr_m (shr_1 mrs) /\
  Zdigits2 (shr_m (shr_1 mrs)) = Z.max (Zdigits2 (shr_m mrs) - 1) 0.
Proof.
  destruct mrs as [m r s]. cbn [shr_m]. intros H.
  destruct m as [|[p|p|]|p]; cbn [shr_1 shr_m Zdigits2 digits2_pos]; lia.
Qed.

Lemma iter_shr_1_digits (p : positive) :
  forall mrs,
  0 <= shr_m mrs ->
  0 <= shr_m (SpecFloat.iter_pos shr_1 p mrs) /\
  Zdigits2 (shr_m (SpecFloat.iter_pos shr_1 p mrs))
  = Z.max (Zdigits2 (shr_m mrs) - Zpos p) 0.
Proof.
  induction p as [p IH|p IH|]; intros mrs H; cbn [SpecFloat.iter_pos].
  - destruct (shr_1_digits mrs H) as [H1 E1].
    destruct (IH _ H1) as [H2 E2]. destruct (IH _ H2) as [H3 E3].
    split; [exact H3|]. rewrite E3, E2, E1. lia.
  - destruct (IH _ H) as [H2 E2]. destruct (IH _ H2) as [H3 E3].
    split; [exact H3|]. rewrite E3, E2. lia.
  - apply shr_1_digits. exact H.
Qed.

(** [shr_fexp] on a mantissa that is not negative: the new exponent, and
    where the digits end. *)
Lemma shr_fexp_digits (m e : Z) (l : location) :
  0 <= m ->
  0 <= shr_m (fst (shr_fexp prec emax m e l)) /\
  snd (shr_fexp prec emax m e l) = Z.max e (fexp prec emax (Zdigits2 m + e)) /\
  Zdigits2 (shr_m (fst (shr_fexp prec emax m e l)))
    + snd (shr_fexp prec emax m e l)
  <= Z.max (Zdigits2 m + e) (snd (shr_fexp prec emax m e l)).
Proof.
  intros Hm. unfold shr_fexp.
  assert (Hrec : shr_m (shr_record_of_loc m l) = m)
    by (destruct l as [|[]]; reflexivity).
  destruct (fexp prec emax (Zdigits2 m + e) - e) as [|n|n] eqn:Hn;
    cbn [shr fst snd]; rewrite ?Hrec;
    try (split; [exact Hm|]; split; lia).
  destruct (@iter_shr_1_digits n (shr_record_of_loc m l)) as [H1 E1];
    [rewrite Hrec; exact Hm|].
  rewrite Hrec in E1. split; [exact H1|]. split; [lia|]. rewrite E1. lia.
Qed.

Lemma round_nearest_even_digits (m : Z) (l : location) :
  0 <= m ->
  0 <= round_nearest_even m l /\
  Zdigits2 (round_nearest_even m l) <= Zdigits2 m + 1.
Proof.
  intros Hm.
  assert (Hs : Zdigits2 (m + 1) <= Zdigits2 m + 1).
  { apply Zdigits2_bound; [|pose proof (Zdigits2_nonneg m); lia].
    destruct m as [|p|p]; try lia; [cbn; lia|].
    pose proof (Zdigits2_upper p). cbn [Zdigits2].
    rewrite Z.pow_add_r by lia. lia. }
  destruct l as [|[]]; cbn [round_nearest_even];
    try destruct (Z.even m); split; lia.
Qed.


(** Rounding a mantissa that ends below [2 ^ emax], at an exponent below
    the largest, gives zero or a finite number. *)
Lemma binary_round_aux_finite (sx : bool) (m e : Z) (l : location) :
  0 <= m -> e <= emax - prec - 1 -> Zdigits2 m + e <= emax - 1 ->
  match binary_round_aux prec emax sx m e l with
  | S754_zero _ | S754_finite _ _ _ => True
  | _ => False
  end.
Proof.
  intros Hm He Hd. unfold binary_round_aux.
  destruct (@shr_fexp_digits m e l Hm) as (H1 & E1 & D1).
  destruct (shr_fexp prec emax m e l) as [mrs1 e1]. cbn [fst snd] in *.
  destruct (@round_nearest_even_digits (shr_m mrs1)
              (loc_of_shr_record mrs1) H1) as (H2 & D2).
  set (m2 := round_nearest_even (shr_m mrs1) (loc_of_shr_record mrs1)) in *.
  destruct (@shr_fexp_digits m2 e1 loc_Exact H2) as (H3 & E3 & _).
  destruct (shr_fexp prec emax m2 e1 loc_Exact) as [mrs3 e3].
  cbn [fst snd] in *.
  assert (He3 : e3 <= emax - prec).
  { unfold fexp, SpecFloat.emin, emax, prec in *. lia. }
  destruct (shr_m mrs3) as [|p|p]; try lia; try exact I.
  apply Z.leb_le in He3. rewrite He3. exact I.
Qed.

(** The quotient of two mantissas, where the dividend ends no higher
    than the divisor. *)
Lemma SFdiv_core_bound (m1 m2 : positive) (e1 e2 : Z) :
  Zpos (digits2_pos m1) + e1 <= Zpos (digits2_pos m2) + e2 ->
  0 <= fst (fst (SFdiv_core_binary prec emax (Zpos m1) e1 (Zpos m2) e2)) /\
  snd (fst (SFdiv_core_binary prec emax (Zpos m1) e1 (Zpos m2) e2))
    <= - prec /\
  Zdigits2 (fst (fst (SFdiv_core_binary prec emax (Zpos m1) e1 (Zpos m2) e2)))
    + snd (fst (SFdiv_core_binary prec emax (Zpos m1) e1 (Zpos m2) e2)) <= 1.
Proof.
  intros Hd. unfold SFdiv_core_binary. cbn [Zdigits2].
  set (d1 := Zpos (digits2_pos m1)) in *.
  set (d2 := Zpos (digits2_pos m2)) in *.
  set (e' := Z.min (fexp prec emax (d1 + e1 - (d2 + e2))) (e1 - e2)).
  assert (He' : e' <= - prec /\ e' <= e1 - e2).
  { subst e'. unfold fexp, SpecFloat.emin, emax, prec. lia. }
  set (s := e1 - e2 - e') in *.
  set (m' := match s with
             | 0 => Zpos m1
             | Zpos _ => Z.shiftl (Zpos m1) s
             | Zneg _ => 0
             end).
  assert (Hm' : m' = Zpos m1 * 2 ^ s).
  { subst m'. destruct s as [|p|p] eqn:Hs; try lia.
    apply Z.shiftl_mul_pow2. lia. }
  pose proof (Zdigits2_upper m1) as U1. fold d1 in U1.
  pose proof (Zdigits2_lower m2) as L2. fold d2 in L2.
  assert (Hs0 : 0 <= s) by lia.
  assert (Hp : 0 < 2 ^ s) by (apply Z.pow_pos_nonneg; lia).
  assert (Hm'0 : 0 <= m') by (rewrite Hm'; lia).
  assert (Hm'u : m' < 2 ^ (d1 + s)).
  { rewrite Hm', Z.pow_add_r by lia. nia. }
  rewrite (surjective_pairing (Z.div_eucl m' (Zpos m2))).
  change (fst (Z.div_eucl m' (Zpos m2))) with (m' / Zpos m2).
  cbn [fst snd].
  assert (Hq0 : 0 <= m' / Zpos m2) by (apply Z.div_pos; lia).
  split; [exact Hq0|]. split; [lia|].
  destruct (Z_lt_le_dec (d1 + s - d2 + 1) 0) as [Hneg|Hpos].
  - assert (Hsmall : m' < Zpos m2).
    { assert (2 ^ (d1 + s) <= 2 ^ (d2 - 1))
        by (apply Z.pow_le_mono_r; lia).
      lia. }
    rewrite Z.div_small by lia. cbn [Zdigits2]. unfold prec in *. lia.
  - assert (Hq : m' / Zpos m2 < 2 ^ (d1 + s - d2 + 1)).
    { apply Z.div_lt_upper_bound; [lia|].
      assert (E : 2 ^ (d1 + s) = 2 ^ (d2 - 1) * 2 ^ (d1 + s - d2 + 1)).
      { rewrite <- Z.pow_add_r by (unfold d2; lia). f_equal. lia. }
      assert (0 < 2 ^ (d1 + s - d2 + 1)) by (apply Z.pow_pos_nonneg; lia).
      nia. }
    pose proof (@Zdigits2_bound (m' / Zpos m2) (d1 + s - d2 + 1)
                  (conj Hq0 Hq) Hpos).
    lia.
Qed.

(** A positive finite number divided by a greater one: zero or finite. *)
Lemma SFdiv_finite_below (m1 m2 : positive) (e1 e2 : Z) :
  SpecFloat.bounded prec emax m1 e1 = true ->
  SpecFloat.bounded prec emax m2 e2 = true ->
  SFleb (S754_finite false m2 e2) (S754_finite false m1 e1) = false ->
  match SF64div (S754_finite false m1 e1) (S754_finite false m2 e2) with
  | S754_zero _ | S754_finite _ _ _ => True
  | _ => False
  end.
Proof.
  intros H1 H2 Hlt.
  apply bounded_canonical in H1, H2.
  assert (Hd : Zpos (digits2_pos m1) + e1 <= Zpos (digits2_pos m2) + e2).
  { unfold SFleb, SFcompare in Hlt. unfold prec, SpecFloat.emin, emax in *.
    change (Pos.compare_cont Eq m2 m1) with (Pos.compare m2 m1) in Hlt.
    destruct (Z.compare_spec e2 e1) as [E|E|E]; try discriminate; [|lia].
    destruct (Pos.compare_spec m2 m1) as [E'|E'|E']; try discriminate.
    destruct (Z_lt_le_dec (Zpos (digits2_pos m2)) (Zpos (digits2_pos m1)))
      as [Hlt'|]; [|lia].
    apply digits2_lt in Hlt'. lia. }
  unfold SF64div, SFdiv.
  destruct (@SFdiv_core_bound m1 m2 e1 e2 Hd) as (Hq & He & Hk).
  destruct (SFdiv_core_binary prec emax (Zpos m1) e1 (Zpos m2) e2)
    as [[q e'] l].
  cbn [fst snd] in *.
  apply binary_round_aux_finite; unfold prec, emax in *; lia.
Qed.

Local Open Scope float_scope.

(** On binary64 a quotient [x / y] with [0 <= x], [y <= x] false and [y]
    not NaN is finite. *)
Lemma div_below_finite (x y : float) :
  (0 <=? x) = true -> (y <=? x) = false -> (y =? y) = true ->
  finite (x / y) = true.
Proof.
  unfold finite. rewrite !leb_spec, FloatAxioms.eqb_spec, div_spec.
  change (Prim2SF 0) with (S754_zero false).
  pose proof (Prim2SF_valid x) as Vx. pose proof (Prim2SF_valid y) as Vy.
  destruct (Prim2SF x) as [sx|sx| |sx mx ex],
           (Prim2SF y) as [sy|sy| |sy my ey];
    try destruct sx; try destruct sy; try discriminate; try reflexivity.
  intros _ Hlt _.
  pose proof (@SFdiv_finite_below mx my ex ey Vx Vy Hlt) as H.
  destruct (SF64div _ _); tauto.
Qed.

(** Subtracting [0.0] changes nothing. *)
Lemma sub_zero (x : float) : x - 0 = x.
Proof.
  apply Prim2SF_inj. rewrite sub_spec.
  change (Prim2SF 0) with (S754_zero false).
  destruct (Prim2SF x) as [[]|[]| |s m e]; reflexivity.
Qed.

(** A NaN rate gives NaN bin frequencies. *)
Lemma nan_propagates (r n z : float) :
  (r =? r) = false -> (0 <=? r / n * z) = false.
Proof.
  rewrite FloatAxioms.eqb_spec, leb_spec, mul_spec, div_spec.
  pose proof (Prim2SF_valid r) as V.
  destruct (Prim2SF r) as [[]|[]| |[] m e]; try discriminate;
    try reflexivity;
    unfold SFeqb, SFcompare;
    rewrite Z.compare_refl;
    change (Pos.compare_cont Eq m m) with (Pos.compare m m);
    rewrite Pos.compare_refl; discriminate.
Qed.

End Binary64Division.

(** ** The divisor and the ends of the response on binary64 *)

Section Binary64Ends.

Import Binary64.

Context {SC : Scanf float}.

Local Open Scope double_scope.

(** The weight of a bin in [0, next_f) measured from 0.0 is finite. *)
Lemma weight_from_zero_finite (f nf : float) :
  (f >= d0) = true -> (f >= nf) = false -> (nf == nf) = true ->
  finite ((f - d0) / (nf - d0)) = true.
Proof.
  intros H0 H1 Hn.
  change (finite (PrimFloat.div (PrimFloat.sub f 0) (PrimFloat.sub nf 0))
          = true).
  rewrite !sub_zero. apply div_below_finite; assumption.
Qed.

(** C8, as amended.  On binary64, for the empty text and an equalizer
    whose bin frequencies [rate / N * i], [i <= N/2], are all [>= 0.0]
    and not [>= rate], [LoadFrequencyAmplification] returns 1 without a
    message and stores exactly 1.0 to every bin [0 .. N/2]. *)
Theorem empty_text_is_flat (bg : Z) (fuel : nat) (e : Equalizer float) :
  let r := rate e in
  let N := block_size e in
  (forall i, (Z.of_nat i <= N ÷ 2)%Z ->
             (bin_freq r N i >= d0) = true /\ (bin_freq r N i >= r) = false) ->
  (0 < N)%Z ->
  length (fftw_freq e) = Z.to_nat N ->
  exists e',
    LoadFrequencyAmplification bg (S fuel) e "" = Some (1%Z, e', []) /\
    forall i, (Z.of_nat i <= N ÷ 2)%Z -> nth i (fftw_freq e') d0 = d1.
Proof.
  intros r N Hb HN Hlen.
  assert (H0 : (Z.of_nat 0 <= N ÷ 2)%Z) by (apply Z.quot_pos; lia).
  assert (Hr : (r == r) = true).
  { destruct (r == r) eqn:E; [reflexivity|].
    pose proof (proj1 (Hb 0%nat H0)) as Hc.
    change (PrimFloat.leb 0 (PrimFloat.mul (PrimFloat.div r (of_int N))
                               (of_int (Z.of_nat 0))) = true) in Hc.
    rewrite (@nan_propagates r (of_int N) (of_int (Z.of_nat 0)) E) in Hc.
    discriminate. }
  apply (@empty_text_level_exact float float_arith SC bg fuel e).
  - apply Hb. exact H0.
  - intros i Hi. apply Hb. exact Hi.
  - intros i Hi. destruct (Hb i Hi) as [Hi0 Hir].
    apply level_exact_finite; [|reflexivity].
    apply weight_from_zero_finite; assumption.
  - exact HN.
  - exact Hlen.
Qed.

(** C3, as amended.  On binary64, for a text of breakpoints that the
    check [next_f <= prev_f] lets pass, with bin 0 at a frequency
    [>= 0.0] and not [>= ] the first breakpoint's and every bin not
    [>= rate], [LoadFrequencyAmplification] returns 1.  Bin 0 holds the
    gain of the first breakpoint when that gain is finite and not [-0.0]
    and its frequency is not NaN.  Bin [N/2] holds the gain of the last
    breakpoint when the frequency computed for that bin,
    [rate / N * (N / 2)], is [>=] every breakpoint's, the gain is finite
    and not [-0.0] and the weight of the interpolation is finite. *)
Theorem breakpoint_gains_at_ends (bg : Z) (fuel : nat) (e : Equalizer float)
    (s : string) (f1 a1 : float) (ps : list (float * float)) :
  let r := rate e in
  let N := block_size e in
  let h := Z.to_nat (N ÷ 2) in
  let f_last := fst (last ps (f1, a1)) in
  let a_last := snd (last ps (f1, a1)) in
  scans_to s ((f1, a1) :: ps) ->
  ascending d0 ((f1, a1) :: ps) ->
  (bin_freq r N 0 >= d0) = true ->
  (bin_freq r N 0 >= f1) = false ->
  (forall i, (Z.of_nat i <= N ÷ 2)%Z -> (bin_freq r N i >= r) = false) ->
  (2 <= N)%Z ->
  length (fftw_freq e) = Z.to_nat N ->
  (length ps < fuel)%nat ->
  exists e',
    LoadFrequencyAmplification bg fuel e s = Some (1%Z, e', []) /\
    ((f1 == f1) = true -> plain a1 = true ->
     nth 0 (fftw_freq e') d0 = a1) /\
    ((forall p, In p ((f1, a1) :: ps) ->
                (bin_freq r N h >= fst p) = true) ->
     finite ((bin_freq r N h - f_last) / (r - f_last)) = true ->
     plain a_last = true ->
     nth h (fftw_freq e') d0 = a_last).
Proof.
  intros r N h f_last a_last Hscan Hasc H0 H1 Hr HN Hlen Hfuel.
  destruct (@sampler_ends_exact float float_arith SC bg fuel e s f1 a1 ps
              Hscan Hasc eq_refl H0 H1 Hr HN Hlen Hfuel)
    as (e' & He' & Hfirst & Hlast).
  exists e'. split; [exact He'|]. split.
  - intros Hf1 Ha1. apply Hfirst. apply level_exact_finite; [|exact Ha1].
    apply weight_from_zero_finite; assumption.
  - intros Hreach Hq Ha. apply Hlast; [exact Hreach|].
    apply level_exact_finite; assumption.
Qed.

(** C9, as amended.  On binary64, when bin 0 enters the loop
    ([rate / N * 0 >= 0.0]) and [LoadFrequencyAmplification] returns 1,
    then at the store to every bin [i] in [0 .. N/2] the divisor
    [next_f - prev_f] is not [<= 0.0]: it is positive, or NaN, and the
    gain stored there, [interpolate f c], does not divide by zero. *)
Theorem divisor_positive_or_nan (bg : Z) (fuel : nat)
    (e e' : Equalizer float) (s : string) (msgs : list (message float))
    (i : nat) :
  LoadFrequencyAmplification bg fuel e s = Some (1%Z, e', msgs) ->
  (bin_freq (rate e) (block_size e) 0 >= d0) = true ->
  (0 < block_size e)%Z ->
  length (fftw_freq e) = Z.to_nat (block_size e) ->
  (Z.of_nat i <= block_size e ÷ 2)%Z ->
  exists c,
    nth_error (cursors_at fuel (rate e) (block_size e)
                 (bins_of (block_size e)) (cursor_init s)) i = Some c /\
    nth i (fftw_freq e') d0 =
      interpolate (bin_freq (rate e) (block_size e) i) c /\
    (next_f c - prev_f c <= d0) = false.
Proof.
  intros H H0 HN Hlen Hi.
  destruct (@stores_separated float float_arith SC bg fuel e e' s msgs i
              H H0 HN Hlen Hi) as (c & Hc & Hst & Hsep).
  exists c. split; [exact Hc|]. split; [exact Hst|].
  apply sub_positive.
  destruct Hsep as [Hsep|(j & _ & Hp & Hn)]; [exact Hsep|].
  exact (@leb_between _ _ _ Hp Hn).
Qed.

End Binary64Ends.

(** ** The amended claims, run on binary64 *)

Section Binary64Witnesses.

Import Binary64.

Local Open Scope string_scope.
Local Open Scope float_scope.

(** The counterexample to C3.  Breakpoints (6000, 1) and (24000, 2) at
    rate 48000 and block size 182: the last breakpoint is at the Nyquist
    frequency, the frequency computed for bin 91 is
    [48000 / 182 * 91 = 23999.999999999996], below it, and the bin holds
    [1.9999999999999998], not 2.  And breakpoints (6000, 2) and
    (30000, 4) at block size 8: the last breakpoint is above the Nyquist
    frequency and bin 4 holds 3.5, not 4. *)
Lemma last_gain_not_reached :
  scans_to "6000 1 24000 2" [(6000, 1); (24000, 2)] /\
  ascending 0 [(6000, 1); (24000, 2)] /\
  bin_freq 48000 182 91 = 0x1.76fffffffffffp+14 /\
  (exists e',
     LoadFrequencyAmplification 0 3 feq_48000_182 "6000 1 24000 2"
       = Some (1%Z, e', []) /\
     nth 91 (fftw_freq e') 0 = 0x1.fffffffffffffp+0 /\
     (nth 91 (fftw_freq e') 0 =? 2) = false) /\
  (exists e',
     LoadFrequencyAmplification 0 3 feq_48000_8 "6000 2 30000 4"
       = Some (1%Z, e', []) /\
     nth 4 (fftw_freq e') 0 = 3.5 /\
     (nth 4 (fftw_freq e') 0 =? 4) = false).
Proof.
  split.
  { apply scans_pair with (len := 7%nat); try reflexivity.
    apply scans_pair with (len := 7%nat); try reflexivity.
    apply scans_end. }
  split; [repeat split|]. split; [reflexivity|].
  split; vm_compute; eexists; repeat split.
Qed.

(** The counterexample to C8.  With the rate 0 the call never returns on
    the empty text; with a NaN rate it returns 1 and bin 0 holds NaN, not
    1.0. *)
Lemma empty_text_not_flat :
  (forall fuel, LoadFrequencyAmplification 0 fuel feq_0_8 "" = None) /\
  (exists e',
     LoadFrequencyAmplification 0 1 feq_nan_8 "" = Some (1%Z, e', []) /\
     (nth 0 (fftw_freq e') 0 =? 1) = false).
Proof.
  split.
  - intros fuel. unfold LoadFrequencyAmplification.
    change (bins_of (block_size feq_0_8)) with (0%nat :: seq 1 4).
    cbn [sample_bins].
    rewrite (@scan_while_spinning float float_arith float_scanf);
      reflexivity.
  - vm_compute. eexists. repeat split.
Qed.

(** The counterexample to C9.  With a NaN rate bin 0 does not enter the
    loop, the call returns 1, and the divisor at the store to bin 0 is
    [0.0 - 0.0]. *)
Lemma divisor_zero_at_nan_rate :
  exists e' c,
    LoadFrequencyAmplification 0 1 feq_nan_8 "" = Some (1%Z, e', []) /\
    nth_error (cursors_at 1 nan 8 (bins_of 8) (cursor_init "")) 0 = Some c /\
    nth 0 (fftw_freq e') 0 = interpolate (bin_freq nan 8 0) c /\
    (next_f c - prev_f c =? 0) = true.
Proof.
  vm_compute. do 2 eexists. repeat split.
Qed.

Lemma scans_6000_12000_float :
  scans_to "6000 2 12000 4" [(6000, 2); (12000, 4)].
Proof.
  apply scans_pair with (len := 7%nat); try reflexivity.
  apply scans_pair with (len := 7%nat); try reflexivity.
  apply scans_end.
Qed.

(** C3 at rate 48000, block size 8, breakpoints (6000, 2) (12000, 4):
    bin 4, at 24000, has reached both. *)
Lemma breakpoint_gains_at_ends_witness :
  exists e',
    LoadFrequencyAmplification 0 2 feq_48000_8 "6000 2 12000 4"
      = Some (1%Z, e', []) /\
    nth 0 (fftw_freq e') 0 = 2 /\
    nth 4 (fftw_freq e') 0 = 4.
Proof.
  destruct (@breakpoint_gains_at_ends float_scanf 0%Z 2
              feq_48000_8 "6000 2 12000 4" 6000 2 [(12000, 4)])
    as (e' & H & H0 & Hh).
  - exact scans_6000_12000_float.
  - repeat split.
  - reflexivity.
  - reflexivity.
  - intros i Hi. do 5 (destruct i as [|i]; [reflexivity|]).
    cbn in Hi. lia.
  - cbn. lia.
  - reflexivity.
  - cbn. lia.
  - exists e'. split; [exact H|]. split.
    + apply H0; reflexivity.
    + apply Hh; try reflexivity.
      intros p [<-|[<-|[]]]; reflexivity.
Defined.

(** C8 at rate 48000, block size 8. *)
Lemma empty_text_is_flat_witness :
  exists e',
    LoadFrequencyAmplification 0 1 feq_48000_8 "" = Some (1%Z, e', []) /\
    forall i, (Z.of_nat i <= 8 ÷ 2)%Z -> nth i (fftw_freq e') 0 = 1.
Proof.
  apply (@empty_text_is_flat float_scanf 0%Z 0 feq_48000_8).
  - intros i Hi. do 5 (destruct i as [|i]; [split; reflexivity|]).
    cbn in Hi. lia.
  - cbn. lia.
  - reflexivity.
Defined.

(** C9 at rate 48000, block size 8, breakpoints (6000, 2) (12000, 4), at
    bin 4, where the end of the text has been passed: the divisor is
    [48000 - 12000]. *)
Lemma divisor_positive_or_nan_witness :
  exists e' c,
    LoadFrequencyAmplification 0 3 feq_48000_8 "6000 2 12000 4"
      = Some (1%Z, e', []) /\
    nth_error (cursors_at 3 48000 8 (bins_of 8)
                 (cursor_init "6000 2 12000 4")) 4 = Some c /\
    nth 4 (fftw_freq e') 0 = interpolate (bin_freq 48000 8 4) c /\
    (next_f c - prev_f c <=? 0) = false.
Proof.
  assert (H : LoadFrequencyAmplification 0 3 feq_48000_8 "6000 2 12000 4"
              = Some (1%Z, set_freq feq_48000_8 [2; 2; 4; 4; 4; 0; 0; 0], []))
    by (vm_compute; reflexivity).
  destruct (@divisor_positive_or_nan float_scanf 0%Z 3 feq_48000_8 _
              "6000 2 12000 4" [] 4 H) as (c & Hc).
  - reflexivity.
  - cbn. lia.
  - reflexivity.
  - cbn. lia.
  - eexists _, c. split; [exact H|exact Hc].
Defined.

End Binary64Witnesses.

(** ** Termination of the sampler *)

Section IdealTermination.

Import Ideal.

Context {SC : Scanf R}.

Local Open Scope R_scope.

Lemma string_skip_shorter (len : nat) (s : string) :
  (0 < len)%nat -> at_nul s = false ->
  (String.length (string_skip len s) < String.length s)%nat.
Proof.
  intros Hlen Hs. destruct len as [|len]; [lia|].
  destruct s as [|a s]; [discriminate|]. simpl.
  clear Hlen Hs. revert s.
  induction len as [|len IH]; intros s; simpl; [lia|].
  destruct s as [|b s]; simpl; [lia|].
  specialize (IH s). lia.
Qed.

(** Below the rate, the [while] loop ends within as many rounds as the
    text has characters, plus one. *)
Lemma scan_while_returns (r f : R) (fuel : nat) :
  forall c,
  (forall t x a len, sscanf_lf_lf_n t = Some (x, a, len) -> (0 < len)%nat) ->
  f < r -> (String.length (config c) < fuel)%nat ->
  scan_while fuel r f c <> Spinning /\
  forall c', scan_while fuel r f c = Advanced c' ->
             (String.length (config c') <= String.length (config c))%nat.
Proof.
  induction fuel as [|fuel IH]; intros c Hprog Hf Hfuel; [lia|].
  destruct (Rgeb_spec f (next_f c)) as [[Hg _]|[Hg _]].
  2:{ rewrite scan_while_exit by exact Hg. split; [discriminate|].
      intros c' H; inversion H; subst. apply Nat.le_refl. }
  destruct (at_nul (config c)) eqn:Hnul.
  - rewrite scan_while_nul by assumption.
    rewrite scan_while_exit by (apply Rgeb_false; exact Hf).
    split; [discriminate|]. intros c' H; inversion H; subst. apply Nat.le_refl.
  - destruct (sscanf_lf_lf_n (config c)) as [[[nf na] len]|] eqn:Hsc.
    + destruct (Rleb_spec nf (next_f c)) as [[Hl _]|[Hl _]].
      * rewrite (@scan_while_nonincreasing R R_arith SC fuel r f c nf na len)
          by assumption.
        split; discriminate.
      * rewrite (@scan_while_scan R R_arith SC fuel r f c nf na len)
          by assumption.
        pose proof (string_skip_shorter (config c) (Hprog _ _ _ _ Hsc) Hnul)
          as Hshort.
        destruct (IH (mkCursor (next_f c)
                        (if deq (next_f c) d0 then na else next_amp c)
                        nf na (string_skip len (config c))) Hprog Hf)
          as (Hne & Hle).
        { cbn [config]. lia. }
        split; [exact Hne|]. intros c' H. specialize (Hle c' H).
        cbn [config] in Hle. lia.
    + rewrite scan_while_unscannable by assumption. split; discriminate.
Qed.

Lemma sample_bins_returns (fuel : nat) (r : R) (N : Z) (bins : list nat) :
  forall c q,
  (forall t x a len, sscanf_lf_lf_n t = Some (x, a, len) -> (0 < len)%nat) ->
  (forall i, In i bins -> bin_freq r N i < r) ->
  (String.length (config c) < fuel)%nat ->
  sample_bins fuel r N bins c q <> Stuck.
Proof.
  induction bins as [|b bins IH]; intros c q Hprog Hlow Hfuel;
    cbn [sample_bins]; [discriminate|].
  destruct (@scan_while_returns r (bin_freq r N b) fuel c Hprog)
    as (Hne & Hle); [apply Hlow; left; reflexivity|exact Hfuel|].
  destruct (scan_while fuel r (bin_freq r N b) c) as [c'|m|];
    [|discriminate|congruence].
  apply IH; [exact Hprog|intros i Hi; apply Hlow; right; exact Hi|].
  specialize (Hle c' eq_refl). lia.
Qed.

(** X1.  With a positive rate and a positive block size the sampler
    returns on every text, within one round more per [while] loop than the
    text has characters, whenever [sscanf] reads at least one character
    for a pair. *)
Theorem sampler_returns (bg : Z) (fuel : nat) (e : Equalizer R) (s : string) :
  (forall t x a len, sscanf_lf_lf_n t = Some (x, a, len) -> (0 < len)%nat) ->
  0 < rate e -> (0 < block_size e)%Z ->
  (String.length s < fuel)%nat ->
  exists ok e' msgs,
    LoadFrequencyAmplification bg fuel e s = Some (ok, e', msgs) /\
    (ok = 0%Z \/ ok = 1%Z).
Proof.
  intros Hprog Hr HN Hfuel. unfold LoadFrequencyAmplification.
  pose proof (@sample_bins_returns fuel (rate e) (block_size e)
                (bins_of (block_size e)) (cursor_init s) (fftw_freq e) Hprog)
    as Hret.
  destruct (sample_bins _ _ _ _ _ _) as [q|m q|].
  - do 3 eexists. split; [reflexivity|right; reflexivity].
  - do 3 eexists. split; [reflexivity|left; reflexivity].
  - exfalso. apply Hret; [|exact Hfuel|reflexivity].
    intros i Hi. apply bin_freq_below_rate; try assumption.
    apply in_bins_of. exact Hi.
Qed.

(** The loop on the empty text never ends when the rate is not positive:
    [next_f] is set to the rate again and again and [f = 0] stays at or
    above it. *)
Lemma scan_while_spins (r : R) (fuel : nat) :
  forall c, r <= 0 -> next_f c <= 0 -> at_nul (config c) = true ->
  scan_while fuel r 0 c = Spinning.
Proof.
  induction fuel as [|fuel IH]; intros c Hr Hn Hnul.
  - simpl. rewrite Rgeb_true by exact Hn. reflexivity.
  - rewrite scan_while_nul by (try assumption; apply Rgeb_true; exact Hn).
    apply IH; assumption.
Qed.

(** X2.  With a rate that is not positive (main accepts any number for
    [--rate]) the sampler does not return on the empty text, the one
    loaded at startup, however many rounds it is given. *)
Theorem empty_text_spins_without_rate (bg : Z) (fuel : nat) (e : Equalizer R) :
  rate e <= 0 -> (0 <= block_size e ÷ 2)%Z ->
  LoadFrequencyAmplification bg fuel e "" = None.
Proof.
  intros Hr HN. unfold LoadFrequencyAmplification, bins_of.
  replace (Z.to_nat (block_size e ÷ 2 + 1))
    with (S (Z.to_nat (block_size e ÷ 2))) by lia.
  cbn [seq sample_bins]. rewrite bin_freq_0.
  rewrite scan_while_spins; [reflexivity|exact Hr|simpl; lra|reflexivity].
Qed.

End IdealTermination.

(** ** The slots of the imaginary parts *)

Section UpperSlots.

Context {D : Type} {AR : Arith D} {SC : Scanf D}.

Variable in_background : Z.

(** X3.  The sampler stores to the bins [0 .. N/2] only: in a buffer
    zeroed by [EqualizerLoad] the slots above [N/2] are still [0.0] when
    it returns, with either value. *)
Theorem upper_slots_stay_zero (fuel : nat) (e e1 : Equalizer D) (s : string)
    (ok : Z) (msgs : list (message D)) (j : nat) :
  LoadFrequencyAmplification in_background fuel
    (set_freq e (memset_zero (block_size e))) s = Some (ok, e1, msgs) ->
  (block_size e ÷ 2 < Z.of_nat j)%Z ->
  nth j (fftw_freq e1) d0 = d0.
Proof.
  rewrite LoadFrequencyAmplification_zeroed.
  destruct (sample_bins _ _ _ _ _ _) as [q|m q|] eqn:Hs; try discriminate;
    intros H Hj; inversion H; subst; clear H; cbn [fftw_freq].
  - erewrite sample_bins_frame; [apply nth_repeat_any|left; exact Hs|].
    unfold bins_of. rewrite in_seq. lia.
  - erewrite sample_bins_frame;
      [apply nth_repeat_any|right; exists m; exact Hs|].
    unfold bins_of. rewrite in_seq. lia.
Qed.

End UpperSlots.

Section ExtraRuns.

Import Ideal.

Local Open Scope string_scope.
Local Open Scope R_scope.

(** The decimal scanner reads at least one character for a pair. *)
Lemma scan_lf_progress (t : string) (x : R) (n : nat) (r : string) :
  scan_lf t = Some (x, n, r) -> (0 < n)%nat.
Proof.
  unfold scan_lf. destruct (skip_spaces t) as [s n0].
  set (sg := match s with
             | String "-"%char s' => (true, s', 1%nat)
             | String "+"%char s' => (false, s', 1%nat)
             | _ => (false, s, 0%nat)
             end).
  destruct sg as [[neg s1] n1].
  destruct (scan_digits s1 0) as [[m n2] s2] eqn:E2.
  destruct s2 as [|a s2'].
  - intros H. destruct (Nat.eqb_spec n2 0); [discriminate|].
    inversion H; subst. lia.
  - destruct (Ascii.eqb a "."%char) eqn:Ha.
    + apply Ascii.eqb_eq in Ha. subst a.
      destruct (scan_digits s2' m) as [[m' n3] s3].
      intros H. destruct (n2 + n3 =? 0)%nat; [discriminate|].
      inversion H; subst. lia.
    + intros H.
      assert (H' : (if (n2 =? 0)%nat then None
                    else Some (decimal (D:=R) neg m 0, (n0 + n1 + n2)%nat,
                               String a s2')) = Some (x, n, r)).
      { destruct a as [b0 b1 b2 b3 b4 b5 b6 b7].
        destruct b0, b1, b2, b3, b4, b5, b6, b7;
          try exact H; discriminate Ha. }
      destruct (Nat.eqb_spec n2 0); [discriminate|].
      inversion H'; subst. lia.
Qed.

Lemma scan_pair_progress (t : string) (x a : R) (len : nat) :
  sscanf_lf_lf_n t = Some (x, a, len) -> (0 < len)%nat.
Proof.
  cbn [sscanf_lf_lf_n R_scanf decimal_scanf]. unfold scan_pair.
  destruct (scan_lf t) as [[[f n1] s1]|] eqn:E1; [|discriminate].
  destruct (scan_lf s1) as [[[g n2] s2]|]; [|discriminate].
  destruct (skip_spaces s2) as [s3 n3].
  intros H; inversion H; subst.
  pose proof (scan_lf_progress _ E1). lia.
Qed.

(** X1 for a text of 13 characters and 15 rounds. *)
Lemma sampler_returns_witness :
  exists ok e' msgs,
    LoadFrequencyAmplification 0 15 eq_48000_8 "6000 2 3000 4"
      = Some (ok, e', msgs) /\
    (ok = 0%Z \/ ok = 1%Z).
Proof.
  apply (@sampler_returns R_scanf 0%Z 15 eq_48000_8 "6000 2 3000 4").
  - exact scan_pair_progress.
  - simpl. lra.
  - simpl. lia.
  - simpl. lia.
Defined.

(** X2 at rate 0. *)
Lemma empty_text_spins_without_rate_witness :
  LoadFrequencyAmplification 0 1000 (mkEqualizer 0 8 (repeat 0 8) (repeat 0 8))
    "" = None.
Proof.
  apply (@empty_text_spins_without_rate R_scanf 0%Z 1000
           (mkEqualizer 0 8 (repeat 0 8) (repeat 0 8))).
  - simpl. lra.
  - vm_compute. discriminate.
Defined.

(** X3 for the gains of ["30000 2"], slot 5 of 8. *)
Lemma upper_slots_stay_zero_witness :
  exists e1,
    LoadFrequencyAmplification 0 1 (set_freq eq_48000_8 (memset_zero 8))
      "30000 2" = Some (1%Z, e1, []) /\
    nth 5 (fftw_freq e1) d0 = d0.
Proof.
  destruct reload_30000_2 as (e' & out & H).
  destruct (@successful_reload_steps R _ _ _ _ 0%Z 1 eq_48000_8 e'
              "30000 2" out H) as (e1 & Hs & _).
  exists e1. split; [exact Hs|].
  apply (@upper_slots_stay_zero R _ _ 0%Z 1 eq_48000_8 e1 "30000 2" 1%Z []
           5 Hs).
  vm_compute. reflexivity.
Defined.

End ExtraRuns.

(** ** The sampler against the requested response *)

Section IdealResponse.

Import Ideal Requested.

Context {SC : Scanf R}.

Local Open Scope R_scope.

Lemma bin_freq_step (r : R) (N : Z) (i : nat) :
  0 < r -> (0 < N)%Z -> bin_freq r N i <= bin_freq r N (S i).
Proof.
  intros Hr HN. unfold bin_freq; simpl dmul; simpl ddiv; simpl of_int.
  assert (0 < IZR N) by (apply IZR_lt; exact HN).
  assert (0 < r / IZR N) by (apply Rdiv_lt_0_compat; assumption).
  apply Rmult_le_compat_l; [lra|]. apply IZR_le. lia.
Qed.

(** One [while] loop from locals that track the response. *)
Lemma scan_while_tracks (r f : R) (ps rest : list (R * R)) :
  forall c fuel,
  tracks r ps c rest -> prev_f c <= f -> f < r -> (length rest < fuel)%nat ->
  exists c' rest',
    scan_while fuel r f c = Advanced c' /\
    tracks r ps c' rest' /\
    (length rest' <= length rest)%nat /\
    prev_f c' <= f /\ f < next_f c'.
Proof.
  induction rest as [|[nf na] rest IH]; intros c fuel Hc Hpf Hf Hfuel;
    destruct (Rgeb_spec f (next_f c)) as [[Hg Hle]|[Hg Hlt]];
    try (exists c; eexists; split; [apply scan_while_exit; exact Hg|];
         split; [exact Hc|]; split; [apply Nat.le_refl|]; split; assumption);
    destruct fuel as [|fuel]; try (simpl in Hfuel; lia);
    destruct Hc as (Hscan & Hinc & Hpos & Hord & Hresp).
  - inversion Hscan as [Hcfg|]; subst.
    assert (Hnul : at_nul (config c) = true) by (rewrite <- Hcfg; reflexivity).
    rewrite (@scan_while_nul R R_arith SC fuel r f c Hg Hnul).
    set (c1 := mkCursor (next_f c) (next_amp c) r (next_amp c) (config c)).
    exists c1, [].
    split; [apply scan_while_exit; apply Rgeb_false; exact Hf|].
    split; [|split; [apply Nat.le_refl|split; [exact Hle|exact Hf]]].
    split; [unfold c1; cbn [config]; rewrite <- Hcfg; constructor|].
    split; [exact I|].
    cbn [c1 next_f prev_f]. split; [lra|]. split; [lra|].
    intros g Hg1 Hg2. rewrite Hresp by lra.
    destruct (Rlt_dec g (next_f c)); [lra|].
    destruct (Rlt_dec g r); [|lra].
    rewrite (interpolate_level g c1) by reflexivity. reflexivity.
  - inversion Hscan as [|s0 f0 a0 len ps0 Hnul Hsc Hrest]; subst.
    destruct Hinc as [Hlo Hinc].
    rewrite (@scan_while_scan R R_arith SC fuel r f c nf na len Hg Hnul Hsc)
      by (apply Rleb_false; exact Hlo).
    change (deq (D:=R) (next_f c) d0) with (Reqb (next_f c) 0).
    rewrite Reqb_false by lra.
    set (c1 := mkCursor (next_f c) (next_amp c) nf na
                 (string_skip len (config c))).
    destruct (IH c1 fuel) as (c' & rest' & Hs & Hc' & Hlen & Hb);
      try assumption.
    { split; [exact Hrest|]. split; [exact Hinc|].
      cbn [c1 next_f prev_f next_amp]. split; [lra|]. split; [exact Hlo|].
      intros g Hg1 Hg2. rewrite Hresp by lra.
      destruct (Rlt_dec g (next_f c)); [lra|].
      cbn [response_from]. destruct (Rlt_dec g nf); [|reflexivity].
      unfold interpolate. cbn [prev_f next_f prev_amp next_amp]. simpl. ring. }
    { simpl in Hfuel. lia. }
    exists c', rest'. split; [exact Hs|]. split; [exact Hc'|].
    split; [simpl; lia|exact Hb].
Qed.

(** The first round, at bin 0: the first breakpoint, or the rate when the
    text is empty, becomes [next]; the gain before it is level. *)
Lemma first_round_tracks (r : R) (fuel : nat) (s : string)
    (ps : list (R * R)) :
  scans_to s ps -> increasing_from 0 ps -> 0 < r ->
  exists c1 rest,
    scan_while (S fuel) r 0 (cursor_init s) = Advanced c1 /\
    tracks r ps c1 rest /\ (length rest <= length ps)%nat /\
    prev_f c1 = 0 /\ 0 < next_f c1.
Proof.
  intros Hscan Hinc Hr.
  inversion Hscan as [Hs|s0 f1 a1 len ps' Hnul Hsc Hrest]; subst.
  - rewrite scan_while_nul by (try reflexivity; apply Rgeb_true; simpl; lra).
    cbn [cursor_init next_f next_amp config].
    set (c1 := mkCursor (D:=R) d0 d1 r d1 "").
    exists c1, []. split; [apply scan_while_exit, Rgeb_false; exact Hr|].
    split; [|split; [apply Nat.le_refl|split; [reflexivity|exact Hr]]].
    split; [constructor|]. split; [exact I|].
    cbn [c1 next_f prev_f]. split; [exact Hr|]. split; [simpl; lra|].
    intros g Hg1 Hg2. destruct (Rlt_dec g r); [|lra].
    rewrite (interpolate_level g c1) by reflexivity. reflexivity.
  - destruct Hinc as [Hf1 Hinc].
    rewrite (@scan_while_scan R R_arith SC fuel r 0 (cursor_init s) f1 a1 len);
      try assumption;
      [|apply Rgeb_true; simpl; lra|apply Rleb_false; exact Hf1].
    cbn [cursor_init next_f next_amp config].
    change (deq (D:=R) d0 d0) with (Reqb 0 0). rewrite Reqb_true by reflexivity.
    set (c1 := mkCursor (D:=R) d0 a1 f1 a1 (string_skip len s)).
    exists c1, ps'. split; [apply scan_while_exit, Rgeb_false; exact Hf1|].
    split; [|split; [simpl; lia|split; [reflexivity|exact Hf1]]].
    split; [exact Hrest|]. split; [exact Hinc|].
    cbn [c1 next_f prev_f next_amp]. split; [exact Hf1|].
    split; [simpl; lra|].
    intros g Hg1 Hg2. cbn [response response_from].
    destruct (Rlt_dec g f1); [|reflexivity].
    rewrite (interpolate_level g c1) by reflexivity.
    cbn [c1 next_amp]. field. lra.
Qed.

(** The bins [lo .. lo + n - 1] from locals that track the response. *)
Lemma sample_seq_tracks (fuel : nat) (r : R) (N : Z) (ps : list (R * R))
    (n : nat) :
  forall lo c rest q,
  tracks r ps c rest -> prev_f c <= bin_freq r N lo ->
  (forall i, bin_freq r N i <= bin_freq r N (S i)) ->
  (forall i, (lo <= i < lo + n)%nat -> bin_freq r N i < r) ->
  (length rest < fuel)%nat -> (lo + n <= length q)%nat ->
  exists q',
    sample_bins fuel r N (seq lo n) c q = Sampled q' /\
    (forall i, (lo <= i < lo + n)%nat ->
               nth i q' 0 = response ps (bin_freq r N i)) /\
    (forall j, (j < lo)%nat -> nth j q' 0 = nth j q 0).
Proof.
  induction n as [|n IH]; intros lo c rest q Hc Hpf Hmono Hlow Hfuel Hlen.
  - exists q. split; [reflexivity|]. split; [intros i Hi; lia|reflexivity].
  - cbn [seq sample_bins].
    destruct (@scan_while_tracks r (bin_freq r N lo) ps rest c fuel)
      as (c' & rest' & -> & Hc' & Hle & Hb1 & Hb2); try assumption.
    { apply Hlow. lia. }
    destruct (IH (S lo) c' rest'
                (upd lo (interpolate (bin_freq r N lo) c') q))
      as (q' & Hs & Hin & Hout); try assumption.
    { pose proof (Hmono lo). lra. }
    { intros i Hi. apply Hlow. lia. }
    { lia. }
    { rewrite upd_length. lia. }
    exists q'. split; [exact Hs|]. split.
    + intros i Hi. destruct (Nat.eq_dec i lo) as [->|Hne].
      * rewrite Hout by lia. rewrite nth_upd_same by lia.
        destruct Hc' as (_ & _ & _ & _ & Hresp).
        rewrite Hresp; [|exact Hb1|apply Hlow; lia].
        destruct (Rlt_dec (bin_freq r N lo) (next_f c')); [reflexivity|lra].
      * apply Hin. lia.
    + intros j Hj. rewrite Hout by lia. apply nth_upd_other. lia.
Qed.

(** The whole loop over the bins. *)
Lemma sample_bins_response (fuel : nat) (r : R) (N : Z) (s : string)
    (ps : list (R * R)) (q : list R) :
  scans_to s ps -> increasing_from 0 ps ->
  0 < r -> (0 < N)%Z -> length q = Z.to_nat N -> (length ps < fuel)%nat ->
  exists q',
    sample_bins fuel r N (bins_of N) (cursor_init s) q = Sampled q' /\
    forall i, (Z.of_nat i <= N ÷ 2)%Z ->
              nth i q' 0 = response ps (bin_freq r N i).
Proof.
  intros Hscan Hinc Hr HN Hlen Hfuel.
  assert (Hq : (2 * (N ÷ 2) <= N)%Z) by (apply Z.mul_quot_le; lia).
  assert (Hq0 : (0 <= N ÷ 2)%Z) by (apply Z.quot_pos; lia).
  assert (Hbins : bins_of N = 0%nat :: seq 1 (Z.to_nat (N ÷ 2))).
  { unfold bins_of.
    replace (Z.to_nat (N ÷ 2 + 1)) with (S (Z.to_nat (N ÷ 2))) by lia.
    reflexivity. }
  destruct fuel as [|fuel]; [lia|].
  destruct (@first_round_tracks r fuel s ps Hscan Hinc Hr)
    as (c1 & rest & Hfirst & Hc1 & Hrl & Hp1 & Hn1).
  rewrite Hbins. cbn [sample_bins]. rewrite bin_freq_0, Hfirst.
  destruct (@sample_seq_tracks (S fuel) r N ps (Z.to_nat (N ÷ 2)) 1 c1 rest
              (upd 0 (interpolate 0 c1) q))
    as (q' & -> & Hin & Hout); try assumption.
  { rewrite Hp1. rewrite <- (bin_freq_0 r N).
    apply bin_freq_step; assumption. }
  { intros i. apply bin_freq_step; assumption. }
  { intros i Hi. apply bin_freq_below_rate; try assumption. lia. }
  { lia. }
  { rewrite upd_length. lia. }
  eexists. split; [reflexivity|].
  intros i Hi. destruct (Nat.eq_dec i 0) as [->|Hne].
  - rewrite Hout by lia. rewrite nth_upd_same by lia.
    destruct Hc1 as (_ & _ & _ & _ & Hresp).
    rewrite bin_freq_0, Hresp by lra.
    destruct (Rlt_dec 0 (next_f c1)); [reflexivity|lra].
  - apply Hin. lia.
Qed.

End IdealResponse.

(** ** What the requested response does at and between breakpoints *)

Section ResponseFacts.

Import Ideal Requested.

Context {SC : Scanf R}.

Local Open Scope R_scope.

Lemma response_from_start (ps : list (R * R)) (pf pa : R) :
  increasing_from pf ps -> response_from pf pa ps pf = pa.
Proof.
  destruct ps as [|[nf na] ps]; intros H; simpl; [reflexivity|].
  destruct H as [H _]. destruct (Rlt_dec pf nf); [|lra].
  replace (pf - pf) with 0 by lra. unfold Rdiv. rewrite !Rmult_0_l. lra.
Qed.

Lemma increasing_from_In (ps : list (R * R)) :
  forall lo f a, increasing_from lo ps -> In (f, a) ps -> lo < f.
Proof.
  induction ps as [|[nf na] ps IH]; intros lo f a H Hin; [destruct Hin|].
  destruct H as [Hlo Hinc]. destruct Hin as [Heq|Hin].
  - inversion Heq; subst. exact Hlo.
  - pose proof (IH nf f a Hinc Hin). lra.
Qed.

(** The response passes through every breakpoint. *)
Lemma response_from_at (ps : list (R * R)) :
  forall pf pa f a,
  increasing_from pf ps -> In (f, a) ps -> response_from pf pa ps f = a.
Proof.
  induction ps as [|[nf na] ps IH]; intros pf pa f a H Hin; [destruct Hin|].
  destruct H as [Hlo Hinc]. cbn [response_from].
  destruct Hin as [Heq|Hin].
  - inversion Heq; subst. destruct (Rlt_dec f f); [lra|].
    apply response_from_start. exact Hinc.
  - pose proof (@increasing_from_In ps nf f a Hinc Hin).
    destruct (Rlt_dec f nf); [lra|]. apply IH; assumption.
Qed.

(** The response stays between the smallest and the largest gain. *)
Lemma response_from_bounds (lo hi : R) (ps : list (R * R)) :
  forall pf pa f,
  increasing_from pf ps -> pf <= f -> lo <= pa <= hi ->
  (forall p, In p ps -> lo <= snd p <= hi) ->
  lo <= response_from pf pa ps f <= hi.
Proof.
  induction ps as [|[nf na] ps IH]; intros pf pa f H Hf Hpa Hps;
    cbn [response_from]; [exact Hpa|].
  destruct H as [Hlo Hinc].
  assert (Hna : lo <= na <= hi) by (apply (Hps (nf, na)); left; reflexivity).
  destruct (Rlt_dec f nf) as [Hlt|Hge].
  - set (t := (f - pf) / (nf - pf)).
    assert (Ht0 : 0 <= t).
    { unfold t. apply Rmult_le_pos; [lra|].
      apply Rlt_le, Rinv_0_lt_compat. lra. }
    assert (Ht1 : t <= 1).
    { unfold t. apply (Rmult_le_reg_r (nf - pf)); [lra|].
      unfold Rdiv. rewrite Rmult_assoc, Rinv_l by lra. lra. }
    split; nra.
  - apply IH; try assumption; [lra|].
    intros p Hp. apply Hps. right. exact Hp.
Qed.

(** X4.  For a text of breakpoints with strictly increasing frequencies,
    the first above 0 (or for the empty text), a positive rate and a
    positive block size, the sampler returns 1 and the gain it stores at
    every bin [i <= N/2] is the requested response at the frequency of the
    bin: the linear interpolation between the neighbouring breakpoints,
    the first gain below the first breakpoint, the last gain above the
    last one. *)
Theorem sampler_follows_response (bg : Z) (fuel : nat) (e : Equalizer R)
    (s : string) (ps : list (R * R)) :
  scans_to s ps -> increasing_from 0 ps ->
  0 < rate e -> (0 < block_size e)%Z ->
  length (fftw_freq e) = Z.to_nat (block_size e) ->
  (length ps < fuel)%nat ->
  exists e',
    LoadFrequencyAmplification bg fuel e s = Some (1%Z, e', []) /\
    forall i, (Z.of_nat i <= block_size e ÷ 2)%Z ->
      nth i (fftw_freq e') 0
      = response ps (bin_freq (rate e) (block_size e) i).
Proof.
  intros Hscan Hinc Hr HN Hlen Hfuel. unfold LoadFrequencyAmplification.
  destruct (@sample_bins_response SC fuel (rate e) (block_size e) s ps
              (fftw_freq e) Hscan Hinc Hr HN Hlen Hfuel) as (q' & -> & Hq).
  eexists. split; [reflexivity|]. exact Hq.
Qed.

(** X5.  Under the same conditions, a bin whose frequency is the frequency
    of a breakpoint holds the gain of that breakpoint. *)
Theorem breakpoints_are_met (bg : Z) (fuel : nat) (e : Equalizer R)
    (s : string) (ps : list (R * R)) (i : nat) (a : R) :
  scans_to s ps -> increasing_from 0 ps ->
  0 < rate e -> (0 < block_size e)%Z ->
  length (fftw_freq e) = Z.to_nat (block_size e) ->
  (length ps < fuel)%nat ->
  (Z.of_nat i <= block_size e ÷ 2)%Z ->
  In (bin_freq (rate e) (block_size e) i, a) ps ->
  exists e',
    LoadFrequencyAmplification bg fuel e s = Some (1%Z, e', []) /\
    nth i (fftw_freq e') 0 = a.
Proof.
  intros Hscan Hinc Hr HN Hlen Hfuel Hi Hin.
  unfold LoadFrequencyAmplification.
  destruct (@sample_bins_response SC fuel (rate e) (block_size e) s ps
              (fftw_freq e) Hscan Hinc Hr HN Hlen Hfuel) as (q' & -> & Hq).
  eexists. split; [reflexivity|]. cbn [fftw_freq set_freq].
  rewrite (Hq i Hi). destruct ps as [|[f1 a1] ps']; [destruct Hin|].
  cbn [response]. apply response_from_at; assumption.
Qed.

(** X6.  Under the same conditions, with at least one breakpoint, no
    stored gain leaves the range of the gains of the breakpoints: when
    every breakpoint gain lies in [[lo, hi]], so does the gain at every
    bin [i <= N/2]. *)
Theorem gains_within_breakpoint_gains (bg : Z) (fuel : nat) (e : Equalizer R)
    (s : string) (ps : list (R * R)) (lo hi : R) :
  scans_to s ps -> increasing_from 0 ps -> ps <> [] ->
  0 < rate e -> (0 < block_size e)%Z ->
  length (fftw_freq e) = Z.to_nat (block_size e) ->
  (length ps < fuel)%nat ->
  (forall p, In p ps -> lo <= snd p <= hi) ->
  exists e',
    LoadFrequencyAmplification bg fuel e s = Some (1%Z, e', []) /\
    forall i, (Z.of_nat i <= block_size e ÷ 2)%Z ->
              lo <= nth i (fftw_freq e') 0 <= hi.
Proof.
  intros Hscan Hinc Hne Hr HN Hlen Hfuel Hps.
  unfold LoadFrequencyAmplification.
  destruct (@sample_bins_response SC fuel (rate e) (block_size e) s ps
              (fftw_freq e) Hscan Hinc Hr HN Hlen Hfuel) as (q' & -> & Hq).
  eexists. split; [reflexivity|]. cbn [fftw_freq set_freq].
  intros i Hi. rewrite (Hq i Hi).
  destruct ps as [|[f1 a1] ps']; [congruence|].
  cbn [response]. apply response_from_bounds; try assumption.
  - apply (bin_freq_range i Hr HN Hi).
  - apply (Hps (f1, a1)). left. reflexivity.
Qed.

End ResponseFacts.

Section ResponseRuns.

Import Ideal Requested.

Local Open Scope string_scope.
Local Open Scope R_scope.

Lemma scans_6000_12000 :
  scans_to "6000 2 12000 4" [(6000, 2); (12000, 4)].
Proof.
  apply scans_pair with (len := 7%nat); try reflexivity.
  apply scans_pair with (len := 7%nat); try reflexivity.
  apply scans_end.
Qed.

(** X4 at rate 48000, block size 8, breakpoints (6000, 2) (12000, 4). *)
Lemma sampler_follows_response_witness :
  exists e',
    LoadFrequencyAmplification 0 3 eq_48000_8 "6000 2 12000 4"
      = Some (1%Z, e', []) /\
    forall i, (Z.of_nat i <= block_size eq_48000_8 ÷ 2)%Z ->
      nth i (fftw_freq e') 0
      = response [(6000, 2); (12000, 4)]
          (bin_freq (rate eq_48000_8) (block_size eq_48000_8) i).
Proof.
  apply (@sampler_follows_response R_scanf 0%Z 3 eq_48000_8 "6000 2 12000 4"
           [(6000, 2); (12000, 4)]).
  - exact scans_6000_12000.
  - simpl. lra.
  - simpl. lra.
  - simpl. lia.
  - reflexivity.
  - simpl. lia.
Defined.

(** X5 at bin 2, whose frequency 12000 is that of the second breakpoint. *)
Lemma breakpoints_are_met_witness :
  exists e',
    LoadFrequencyAmplification 0 3 eq_48000_8 "6000 2 12000 4"
      = Some (1%Z, e', []) /\
    nth 2 (fftw_freq e') 0 = 4.
Proof.
  apply (@breakpoints_are_met R_scanf 0%Z 3 eq_48000_8 "6000 2 12000 4"
           [(6000, 2); (12000, 4)] 2 4).
  - exact scans_6000_12000.
  - simpl. lra.
  - simpl. lra.
  - simpl. lia.
  - reflexivity.
  - simpl. lia.
  - vm_compute. discriminate.
  - right. left. f_equal. unfold bin_freq. simpl. lra.
Defined.

(** X6 for the same text: every gain lies in [[2, 4]]. *)
Lemma gains_within_breakpoint_gains_witness :
  exists e',
    LoadFrequencyAmplification 0 3 eq_48000_8 "6000 2 12000 4"
      = Some (1%Z, e', []) /\
    forall i, (Z.of_nat i <= block_size eq_48000_8 ÷ 2)%Z ->
              2 <= nth i (fftw_freq e') 0 <= 4.
Proof.
  apply (@gains_within_breakpoint_gains R_scanf 0%Z 3 eq_48000_8
           "6000 2 12000 4" [(6000, 2); (12000, 4)] 2 4).
  - exact scans_6000_12000.
  - simpl. lra.
  - discriminate.
  - simpl. lra.
  - simpl. lia.
  - reflexivity.
  - simpl. lia.
  - intros p [<-|[<-|[]]]; simpl; lra.
Defined.

End ResponseRuns.

(** ** What a reload depends on and what it keeps *)

Section ReloadFacts.

Context {D : Type} {AR : Arith D} {SC : Scanf D} {LM : Libm D} {FF : Fftw D}.

Local Open Scope double_scope.

Lemma flat_map_nothing {A B : Type} (f : A -> list B) (l : list A) :
  (forall x, f x = []) -> flat_map f l = [].
Proof.
  intros H. induction l as [|x l IH]; simpl; [reflexivity|].
  rewrite H, IH. reflexivity.
Qed.

Lemma Message_background (bg : Z) (m : message D) :
  bg <> 0%Z -> Message bg m = [].
Proof.
  intros H. unfold Message. destruct (Z.eqb_spec bg 0); [contradiction|].
  reflexivity.
Qed.

(** X7.  The global [in_background] decides what is printed and nothing
    else: with any value of it [EqualizerLoad] returns when, and what, it
    returns with 0, leaving the same equalizer; with a value other than 0
    it prints nothing at all. *)
Theorem background_only_silences (bg : Z) (fuel : nat) (e : Equalizer D)
    (s : string) :
  match EqualizerLoad bg fuel e s, EqualizerLoad 0 fuel e s with
  | Some (ok, e', out), Some (ok0, e0, _) =>
      ok = ok0 /\ e' = e0 /\ (bg <> 0%Z -> out = [])
  | None, None => True
  | _, _ => False
  end.
Proof.
  rewrite !EqualizerLoad_outcome.
  destruct (sample_bins _ _ _ _ _ _) as [q|m q|]; [| |exact I].
  - cbv zeta. split; [reflexivity|]. split; [reflexivity|].
    intros Hbg. rewrite Message_background by exact Hbg.
    unfold diagnose, debug_output. cbn [snd app].
    rewrite !flat_map_nothing; [reflexivity| |];
      intros i; apply Message_background; exact Hbg.
  - split; [reflexivity|]. split; [reflexivity|].
    intros Hbg. rewrite !Message_background by exact Hbg. reflexivity.
Qed.

Lemma fold_left_length {A : Type} (step : list A -> nat -> list A)
    (l : list nat) :
  (forall t i, length (step t i) = length t) ->
  forall t, length (fold_left step l t) = length t.
Proof.
  intros H. induction l as [|i l IH]; intros t; simpl; [reflexivity|].
  rewrite IH. apply H.
Qed.

Lemma window_and_shift_length (N : Z) (t : list D) :
  length (window_and_shift N t) = length t.
Proof.
  unfold window_and_shift, mirror_loop, window_loop.
  rewrite upd_length, !fold_left_length; [reflexivity| |];
    intros t' i; apply upd_length.
Qed.

Lemma normalize_loop_length (N : Z) (q : list D) :
  length (normalize_loop N q) = length q.
Proof.
  unfold normalize_loop. apply fold_left_length.
  intros t i. apply upd_length.
Qed.

(** X8.  A reload, failed or not, keeps the equalizer in shape: the rate
    and the block size [N] are as before and both buffers hold [N]
    elements afterwards, given that they did before and that each plan
    writes [N] outputs. *)
Theorem reload_keeps_shape (bg : Z) (fuel : nat) (e e' : Equalizer D)
    (s : string) (ok : Z) (out : list (message D)) :
  let N := block_size e in
  (forall x, length (hc2r N x) = Z.to_nat N) ->
  (forall x, length (r2hc N x) = Z.to_nat N) ->
  length (fftw_time e) = Z.to_nat N ->
  EqualizerLoad bg fuel e s = Some (ok, e', out) ->
  rate e' = rate e /\ block_size e' = N /\
  length (fftw_time e') = Z.to_nat N /\
  length (fftw_freq e') = Z.to_nat N.
Proof.
  intros N Hinv Hfwd Htime. rewrite EqualizerLoad_outcome. fold N.
  destruct (sample_bins _ _ _ _ _ _) as [q|m q|] eqn:Hs; try discriminate;
    intros H; inversion H; subst; clear H.
  - cbn [diagnose fst rate block_size fftw_time fftw_freq set_freq set_time
         synthesize execute_inverse execute_forward].
    rewrite normalize_loop_length, window_and_shift_length, Hfwd, Hinv.
    repeat split.
  - cbn [rate block_size fftw_time fftw_freq].
    repeat split; [exact Htime|].
    erewrite sample_bins_length; [|right; exists m; exact Hs].
    unfold memset_zero. apply repeat_length.
Qed.

(** X9.  A reload starts from scratch: for two equalizers of the same rate
    and block size, whatever their buffers hold, [EqualizerLoad] returns
    the same value and prints the same messages, leaves the same
    frequency-domain buffer and, when it returns 1, the same filter. *)
Theorem reload_forgets_buffers (bg : Z) (fuel : nat) (e1 e2 : Equalizer D)
    (s : string) :
  rate e1 = rate e2 -> block_size e1 = block_size e2 ->
  match EqualizerLoad bg fuel e1 s, EqualizerLoad bg fuel e2 s with
  | Some (ok1, e1', out1), Some (ok2, e2', out2) =>
      ok1 = ok2 /\ out1 = out2 /\ fftw_freq e1' = fftw_freq e2' /\
      (ok1 = 1%Z -> e1' = e2')
  | None, None => True
  | _, _ => False
  end.
Proof.
  intros Hr Hb. rewrite !EqualizerLoad_outcome, Hr, Hb.
  destruct (sample_bins _ _ _ _ _ _) as [q|m q|]; [| |exact I].
  - cbv zeta. unfold diagnose, synthesize, execute_inverse, execute_forward.
    cbn [fst snd rate block_size fftw_time fftw_freq set_freq set_time].
    repeat split.
  - repeat split. intros H. discriminate H.
Qed.

End ReloadFacts.

(** ** The Hann window *)

Section WindowShape.

Import Ideal.

Local Open Scope R_scope.

Lemma GetWindow_R (x : R) : GetWindow x = 1 / 2 + 1 / 2 * cos (PI * x).
Proof. reflexivity. Qed.

(** X10.  In exact arithmetic [GetWindow] is the raised cosine the comment
    above it asks for: 1 at 0, 0 at 1, symmetric, between 0 and 1
    everywhere, and strictly decreasing from 0 to 1. *)
Theorem GetWindow_shape :
  GetWindow 0 = 1 /\ GetWindow 1 = 0 /\
  (forall x : R, GetWindow (- x) = GetWindow x) /\
  (forall x : R, 0 <= GetWindow x <= 1) /\
  (forall x y : R, 0 <= x -> x < y -> y <= 1 -> GetWindow y < GetWindow x).
Proof.
  split; [|split; [|split; [|split]]].
  - rewrite GetWindow_R, Rmult_0_r, cos_0. lra.
  - rewrite GetWindow_R, Rmult_1_r, cos_PI. lra.
  - intros x. rewrite !GetWindow_R.
    replace (PI * - x) with (- (PI * x)) by ring. rewrite cos_neg. reflexivity.
  - intros x. rewrite GetWindow_R. pose proof (COS_bound (PI * x)). lra.
  - intros x y Hx Hxy Hy. rewrite !GetWindow_R.
    pose proof PI_RGT_0 as Hpi.
    assert (cos (PI * y) < cos (PI * x)); [|lra].
    apply cos_decreasing_1; try nra.
Qed.

End WindowShape.

(** ** The filter of a level response *)

Section LevelResponse.

Import Ideal Requested.

Context {SC : Scanf R}.

Local Open Scope R_scope.

Lemma sin_INR_PI (k : nat) : sin (INR k * PI) = 0.
Proof.
  induction k as [|k IH].
  - simpl. rewrite Rmult_0_l. apply sin_0.
  - rewrite S_INR. replace ((INR k + 1) * PI) with (INR k * PI + PI) by ring.
    rewrite neg_sin, IH. ring.
Qed.

Lemma Rsum_app (f : nat -> R) (l1 l2 : list nat) :
  Rsum f (l1 ++ l2) = Rsum f l1 + Rsum f l2.
Proof.
  induction l1 as [|j l1 IH]; simpl; [ring|]. rewrite IH. ring.
Qed.

Lemma Rsum_scal (a : R) (f : nat -> R) (l : list nat) :
  Rsum (fun j => a * f j) l = a * Rsum f l.
Proof.
  induction l as [|j l IH]; simpl; [ring|]. rewrite IH. ring.
Qed.

Lemma Rsum_const (c : R) (l : list nat) :
  Rsum (fun _ => c) l = c * INR (length l).
Proof.
  induction l as [|j l IH]; [simpl; ring|].
  change (Rsum (fun _ => c) (j :: l)) with (c + Rsum (fun _ => c) l).
  rewrite IH. change (length (j :: l)) with (S (length l)).
  rewrite S_INR. ring.
Qed.

(** The sum of [2 cos (j t)] for [j = 1 .. m], times [sin (t / 2)]. *)
Lemma cos_sum_telescopes (t : R) (m : nat) :
  sin (t / 2) * Rsum (fun j => 2 * cos (INR j * t)) (seq 1 m)
  = sin ((INR m + 1 / 2) * t) - sin (t / 2).
Proof.
  induction m as [|m IH].
  - simpl. replace ((0 + 1 / 2) * t) with (t / 2) by field. ring.
  - rewrite seq_S, Rsum_app, Rmult_plus_distr_l, IH.
    cbn [Rsum fold_right]. rewrite Nat.add_1_l, !S_INR.
    replace ((INR m + 1 + 1 / 2) * t) with ((INR m + 1) * t + t / 2) by field.
    replace ((INR m + 1 / 2) * t) with ((INR m + 1) * t - t / 2) by field.
    rewrite sin_plus, sin_minus. ring.
Qed.

(** The cosines of a full set of bins cancel away from sample 0. *)
Lemma cos_sum_cancels (h k : nat) :
  (1 <= h)%nat -> (0 < k < 2 * h)%nat ->
  1 + Rsum (fun j => 2 * cos (INR j * (PI * INR k / INR h))) (seq 1 (h - 1))
  + cos (PI * INR k) = 0.
Proof.
  intros Hh Hk. set (t := PI * INR k / INR h).
  assert (Hh0 : 0 < INR h) by (apply lt_0_INR; lia).
  assert (Hk0 : 0 < INR k) by (apply lt_0_INR; lia).
  assert (Hk2 : INR k < 2 * INR h).
  { replace (2 * INR h) with (INR (2 * h)) by (rewrite mult_INR; simpl; ring).
    apply lt_INR. lia. }
  pose proof PI_RGT_0 as Hpi.
  pose proof (cos_sum_telescopes t (h - 1)) as E.
  rewrite minus_INR in E by exact Hh. simpl (INR 1) in E.
  replace ((INR h - 1 + 1 / 2) * t) with (PI * INR k - t / 2) in E
    by (unfold t; field; lra).
  rewrite sin_minus in E.
  replace (PI * INR k) with (INR k * PI) in E at 1 by ring.
  rewrite sin_INR_PI in E.
  assert (Hs : 0 < sin (t / 2)).
  { apply sin_gt_0.
    - unfold t. apply Rdiv_lt_0_compat; [|lra].
      apply Rdiv_lt_0_compat; [nra|lra].
    - unfold t. apply (Rmult_lt_reg_r (2 * INR h)); [lra|].
      replace (PI * INR k / INR h / 2 * (2 * INR h)) with (PI * INR k)
        by (field; lra).
      nra. }
  apply (Rmult_eq_reg_l (sin (t / 2))); [|lra].
  rewrite !Rmult_plus_distr_l, E. ring.
Qed.

(** The inverse transform of a level spectrum is a single sample. *)
Lemma hc2r_at_level (h k : nat) (a : R) (x : list R) :
  (1 <= h)%nat -> (k < 2 * h)%nat ->
  (forall j, (j <= h)%nat -> nth j x 0 = a) ->
  (forall j, (h < j < 2 * h)%nat -> nth j x 0 = 0) ->
  hc2r_at (2 * h) x k = if (k =? 0)%nat then a * INR (2 * h) else 0.
Proof.
  intros Hh Hk Hlow Hup. unfold hc2r_at.
  assert (Heven : Nat.even (2 * h) = true)
    by (apply Nat.even_spec; exists h; reflexivity).
  assert (Hhalf : ((2 * h - 1) / 2 = h - 1)%nat).
  { symmetry. apply Nat.div_unique with (r := 1%nat); lia. }
  assert (Hdiv : (2 * h / 2 = h)%nat).
  { rewrite Nat.mul_comm. apply Nat.div_mul. lia. }
  assert (Hh0 : 0 < INR h) by (apply lt_0_INR; lia).
  rewrite Heven, Hhalf, Hdiv, (Hlow 0%nat), (Hlow h) by lia.
  rewrite (Rsum_ext _ (fun j => a * (2 * cos (INR j * (PI * INR k / INR h))))).
  2:{ intros j Hj. apply in_seq in Hj.
      rewrite (Hlow j), (Hup (2 * h - j)%nat) by lia.
      replace (angle (2 * h) j k) with (INR j * (PI * INR k / INR h)).
      - ring.
      - unfold angle. rewrite mult_INR. simpl (INR 2). field. lra. }
  rewrite Rsum_scal.
  destruct (Nat.eqb_spec k 0) as [->|Hk0].
  - rewrite (Rsum_ext _ (fun _ => 2)).
    2:{ intros j _. simpl (INR 0). rewrite Rmult_0_r.
        unfold Rdiv. rewrite Rmult_0_l, Rmult_0_r, cos_0. ring. }
    rewrite Rsum_const, length_seq, minus_INR by exact Hh.
    simpl (INR 0). rewrite Rmult_0_r, cos_0, mult_INR. simpl. ring.
  - pose proof (@cos_sum_cancels h k Hh ltac:(lia)) as E.
    replace (a + a * Rsum (fun j => 2 * cos (INR j * (PI * INR k / INR h)))
                       (seq 1 (h - 1)) + a * cos (PI * INR k))
      with (a * (1 + Rsum (fun j => 2 * cos (INR j * (PI * INR k / INR h)))
                       (seq 1 (h - 1)) + cos (PI * INR k))) by ring.
    rewrite E. ring.
Qed.

(** A level response, whatever frequencies its breakpoints have. *)
Lemma response_level (ps : list (R * R)) (a f : R) :
  increasing_from 0 ps -> 0 <= f ->
  (forall p, In p ps -> snd p = a) -> (ps = [] -> a = 1) ->
  response ps f = a.
Proof.
  intros Hinc Hf Hps Hnil. destruct ps as [|[f1 a1] ps'].
  - simpl. symmetry. apply Hnil. reflexivity.
  - cbn [response].
    assert (Ha1 : a1 = a) by (apply (Hps (f1, a1)); left; reflexivity).
    assert (a <= response_from 0 a1 ((f1, a1) :: ps') f <= a); [|lra].
    apply response_from_bounds; try assumption; [lra|].
    intros p Hp. rewrite (Hps p Hp). lra.
Qed.

(** X11.  When every breakpoint asks for the same gain [a] (for the empty
    text, [a = 1]), the filter of a successful reload is [a] at sample
    [N/2] and 0 everywhere else: the signal is delayed by [N/2] samples
    and scaled by [a], whatever the breakpoint frequencies.  Exact
    arithmetic, the inverse transform as FFTW's manual defines it. *)
Theorem level_response_is_scaled_delay (bg : Z) (fuel : nat)
    (e : Equalizer R) (s : string) (ps : list (R * R)) (a : R) :
  scans_to s ps -> increasing_from 0 ps ->
  (forall p, In p ps -> snd p = a) -> (ps = [] -> a = 1) ->
  0 < rate e -> (0 < block_size e)%Z -> Z.even (block_size e) = true ->
  (length ps < fuel)%nat ->
  exists e' out,
    EqualizerLoad bg fuel e s = Some (1%Z, e', out) /\
    forall j, (j < Z.to_nat (block_size e))%nat ->
      nth j (fftw_time e') 0
      = if (j =? Z.to_nat (block_size e ÷ 2))%nat then a else 0.
Proof.
  intros Hscan Hinc Hps Hnil Hr HN Heven Hfuel.
  set (N := block_size e) in *. set (h := Z.to_nat (N ÷ 2)).
  assert (HN2 : N = (2 * (N ÷ 2))%Z).
  { apply Z.even_spec in Heven. destruct Heven as [k ->].
    rewrite Z.mul_comm, Z.quot_mul by lia. lia. }
  assert (Hn : Z.to_nat N = (2 * h)%nat) by (subst h; lia).
  assert (Hh : (1 <= h)%nat) by (subst h; lia).
  rewrite EqualizerLoad_outcome. fold N.
  destruct (@sample_bins_response SC fuel (rate e) N s ps (memset_zero N)
              Hscan Hinc Hr HN) as (q & Hs & Hq); [apply repeat_length|exact Hfuel|].
  rewrite Hs. cbv zeta. do 2 eexists. split; [reflexivity|].
  cbn [diagnose fst fftw_time set_freq execute_forward].
  rewrite synthesize_time. cbn [block_size fftw_freq hc2r R_fftw].
  assert (Hraw : forall k, (k < 2 * h)%nat ->
            nth k (hc2r_ref N q) 0 = if (k =? 0)%nat then a * INR (2 * h) else 0).
  { intros k Hk. unfold hc2r_ref. rewrite Hn, nth_map_seq by exact Hk.
    apply hc2r_at_level; try assumption.
    - intros j Hj. rewrite (Hq j) by (subst h; lia).
      apply response_level; try assumption.
      apply (bin_freq_range j Hr HN). subst h. lia.
    - intros j Hj.
      transitivity (nth j (memset_zero (D:=R) N) 0).
      + apply (@sample_bins_frame R R_arith SC fuel (rate e) N (bins_of N)
                 (cursor_init s) (memset_zero N) q j (or_introl Hs)).
        rewrite in_bins_of. subst h. lia.
      + apply (nth_repeat_any (A:=R)). }
  destruct (@window_and_shift_spec R R_arith R_libm N (hc2r_ref N q) HN Heven
              (hc2r_ref_length N q)) as (H0 & Hhi & Hlo).
  fold h in Hhi, Hlo. rewrite Hn in Hlo.
  change (@d0 R R_arith) with 0 in H0, Hhi, Hlo.
  assert (Hw0 : weight (D:=R) N 0 = 1 / IZR N).
  { unfold weight. rewrite GetWindow_R.
    replace (ddiv (of_int (Z.of_nat 0)) (of_int (N ÷ 2))) with 0
      by (simpl; unfold Rdiv; rewrite Rmult_0_l; reflexivity).
    rewrite Rmult_0_r, cos_0. simpl. field.
    apply not_0_IZR. lia. }
  assert (Hsecond : forall i, (i < h)%nat ->
            nth (h + i) (window_and_shift N (hc2r_ref N q)) 0
            = if (i =? 0)%nat then a else 0).
  { intros i Hi. rewrite (Hhi i Hi), Hraw by lia. cbn [dmul R_arith].
    destruct (Nat.eqb_spec i 0) as [->|Hne]; [|ring].
    rewrite Hw0, <- Hn, INR_IZR_INZ, Z2Nat.id by lia.
    field. apply not_0_IZR. lia. }
  intros j Hj. rewrite Hn in Hj.
  destruct (Nat.eqb_spec j h) as [->|Hjh].
  - replace h with (h + 0)%nat at 1 by lia. rewrite Hsecond by lia.
    reflexivity.
  - destruct (Nat.eq_dec j 0) as [->|Hj0]; [exact H0|].
    destruct (Nat.lt_ge_cases j h) as [Hlt|Hge].
    + rewrite Hlo by lia.
      replace (2 * h - j)%nat with (h + (h - j))%nat by lia.
      rewrite Hsecond by lia.
      destruct (Nat.eqb_spec (h - j) 0); [lia|reflexivity].
    + replace j with (h + (j - h))%nat by lia.
      rewrite Hsecond by lia.
      destruct (Nat.eqb_spec (j - h) 0); [lia|reflexivity].
Qed.

End LevelResponse.

(** ** The options of main *)

Section OptionFacts.

Context {D : Type} {AR : Arith D}.

Variable sscanf_lf : string -> option D.
Variable strtol : string -> Z.

Lemma int_of_long_range (z : Z) :
  (- 2 ^ 31 <= int_of_long z < 2 ^ 31)%Z.
Proof.
  unfold int_of_long.
  pose proof (Z.mod_pos_bound (z + 2 ^ 31) (2 ^ 32) ltac:(lia)). lia.
Qed.

Lemma rem_2_even (b : Z) : Z.rem b 2 = 0%Z -> Z.even b = true.
Proof.
  intros H. apply Z.even_spec. exists (b ÷ 2)%Z.
  pose proof (Z.quot_rem' b 2). lia.
Qed.

Lemma option_step_checks (l : locals D) (opt : ascii) (optarg : string) :
  checked l ->
  match option_step sscanf_lf strtol l opt optarg with
  | Parsed l' => checked l'
  | Exited status out =>
      status = EX_USAGE /\ exists before, out = before ++ [MsgUsage]
  end.
Proof.
  intros Hl. pose proof Hl as (Hb & He & Hbr & Hc & Hcr).
  assert (Hexit : forall before : list (main_message D),
            EX_USAGE = EX_USAGE /\
            exists before', before ++ [MsgUsage] = before' ++ [MsgUsage])
    by (intros before; split; [reflexivity|exists before; reflexivity]).
  unfold option_step, Usage.
  destruct (Ascii.eqb opt "d"); [exact Hl|].
  destruct (Ascii.eqb opt "r").
  { destruct (sscanf_lf optarg); [exact Hl|apply Hexit]. }
  destruct (Ascii.eqb opt "b").
  { cbv zeta. pose proof (int_of_long_range (strtol optarg)) as Hr.
    destruct (Z.eqb_spec (int_of_long (strtol optarg)) 0) as [H0|H0];
      cbn [orb]; [apply Hexit|].
    destruct (Z.eqb_spec (Z.rem (int_of_long (strtol optarg)) 2) 0)
      as [H2|H2]; cbn [negb]; [|apply Hexit].
    unfold checked. cbn [block channels].
    split; [exact H0|]. split; [apply rem_2_even; exact H2|].
    split; [exact Hr|]. split; assumption. }
  destruct (Ascii.eqb opt "c").
  { cbv zeta. pose proof (int_of_long_range (strtol optarg)) as Hr.
    destruct (Z.eqb_spec (int_of_long (strtol optarg)) 0) as [H0|H0];
      [apply Hexit|].
    unfold checked. cbn [block channels].
    split; [exact Hb|]. split; [exact He|]. split; [exact Hbr|].
    split; assumption. }
  destruct (Ascii.eqb opt "B"); [exact Hl|].
  destruct (Ascii.eqb opt "s"); [exact Hl|].
  apply (Hexit []).
Qed.

Lemma parse_options_checks (args : list (ascii * string)) :
  forall l, checked l ->
  match parse_options sscanf_lf strtol args l with
  | Parsed l' => checked l'
  | Exited status out =>
      status = EX_USAGE /\ exists before, out = before ++ [MsgUsage]
  end.
Proof.
  induction args as [|[opt optarg] args IH]; intros l Hl; cbn [parse_options];
    [exact Hl|].
  pose proof (option_step_checks opt optarg Hl) as Hstep.
  destruct (option_step sscanf_lf strtol l opt optarg) as [l'|status out];
    [apply IH; exact Hstep|exact Hstep].
Qed.

(** X12.  Whatever options [getopt_long] hands to [main], the option loop
    either ends with a block size that is even and not 0 and a channel
    count that is not 0, both within [int], or exits with [EX_USAGE]
    after the usage text as its last message. *)
Theorem options_checked_or_usage (args : list (ascii * string)) :
  match parse_options sscanf_lf strtol args main_defaults with
  | Parsed l =>
      block l <> 0%Z /\ Z.even (block l) = true /\
      (- 2 ^ 31 <= block l < 2 ^ 31)%Z /\
      channels l <> 0%Z /\ (- 2 ^ 31 <= channels l < 2 ^ 31)%Z
  | Exited status out =>
      status = EX_USAGE /\ exists before, out = before ++ [MsgUsage]
  end.
Proof.
  apply (parse_options_checks args (l := main_defaults)).
  unfold checked, main_defaults. cbn [block channels].
  split; [discriminate|]. split; [reflexivity|]. split; [lia|].
  split; [discriminate|lia].
Qed.

End OptionFacts.

(** ** The request loop of main *)

Section ServeFacts.

Context {D : Type} {AR : Arith D} {SC : Scanf D} {LM : Libm D} {FF : Fftw D}.

Variable in_background : Z.

(** The loop over the channels issues one [ioctl] per channel, whatever
    the earlier ones returned. *)
Lemma set_filters_calls (e : Equalizer D) (fd : Z)
    (ioctl_result : Z -> Z * Z) (chs : list nat) :
  fst (set_filters in_background e fd ioctl_result chs)
  = map (fun ch => DevIoctl fd (Z.of_nat ch) 0 (block_size e) (fftw_time e))
      chs.
Proof.
  induction chs as [|ch chs IH]; cbn [set_filters map]; [reflexivity|].
  destruct (ioctl_result (Z.of_nat ch)) as [error errno].
  destruct (set_filters in_background e fd ioctl_result chs) as [calls msgs].
  cbn [fst] in *. rewrite IH. reflexivity.
Qed.

(** A channel is reported exactly when its [ioctl] returned an error. *)
Lemma set_filters_messages (e : Equalizer D) (fd : Z)
    (ioctl_result : Z -> Z * Z) (chs : list nat) (m : main_message D) :
  In m (snd (set_filters in_background e fd ioctl_result chs)) <->
  in_background = 0%Z /\
  exists ch, In ch chs /\ fst (ioctl_result (Z.of_nat ch)) <> 0%Z /\
    m = MsgCannotSetFilter (Z.of_nat ch) (fst (ioctl_result (Z.of_nat ch)))
          (snd (ioctl_result (Z.of_nat ch))).
Proof.
  induction chs as [|ch chs IH]; cbn [set_filters].
  - cbn [snd In]. split; [intros []|intros (_ & ch & [] & _)].
  - destruct (ioctl_result (Z.of_nat ch)) as [error errno] eqn:Hres.
    destruct (set_filters in_background e fd ioctl_result chs)
      as [calls msgs].
    cbn [snd] in *. rewrite in_app_iff, IH. unfold MainMessage.
    split.
    + intros [Hm|(Hbg & c & Hc & Herr & Hm)].
      * destruct (Z.eqb_spec error 0); [destruct Hm|].
        destruct (Z.eqb_spec in_background 0); [|destruct Hm].
        destruct Hm as [<-|[]]. split; [assumption|].
        exists ch. rewrite Hres. cbn [fst snd].
        split; [left; reflexivity|]. split; [assumption|reflexivity].
      * split; [exact Hbg|]. exists c. split; [right; exact Hc|].
        split; assumption.
    + intros (Hbg & c & [<-|Hc] & Herr & Hm).
      * left. rewrite Hres in Herr, Hm. cbn [fst snd] in Herr, Hm.
        destruct (Z.eqb_spec error 0); [contradiction|].
        destruct (Z.eqb_spec in_background 0); [|contradiction].
        left. symmetry. exact Hm.
      * right. split; [exact Hbg|]. exists c. split; [exact Hc|].
        split; assumption.
Qed.

(** X13.  A datagram whose reload returns 1 reaches every channel: with a
    descriptor other than 0 (the one value the code takes for a failed
    [open]; -1 is not), the round opens the device, issues one [ioctl] per
    channel [0 .. channels - 1], in order, each with filter number 0, the
    block size as the filter size and the whole time-domain buffer, and
    closes the device, whatever the [ioctl]s return; a channel is reported
    exactly when its [ioctl] returned an error and the process is not in
    the background. *)
Theorem accepted_message_reaches_every_channel (fuel : nat) (l : locals D)
    (fd : Z) (ioctl_result : Z -> Z * Z) (e e' : Equalizer D)
    (datagram : string) (out : list (message D)) :
  EqualizerLoad in_background fuel e (read_buffer datagram)
    = Some (1%Z, e', out) ->
  fd <> 0%Z ->
  exists msgs,
    serve_one in_background fuel l fd ioctl_result e datagram
    = Some (e',
            DevOpen (dsp l)
            :: map (fun ch => DevIoctl fd (Z.of_nat ch) 0 (block_size e)
                                (fftw_time e'))
                 (seq 0 (Z.to_nat (channels l)))
            ++ [DevClose fd],
            map (@MsgLoad D) out ++ msgs) /\
    forall ch error errno,
      In (MsgCannotSetFilter ch error errno) msgs <->
      in_background = 0%Z /\ (0 <= ch < channels l)%Z /\
      error <> 0%Z /\ ioctl_result ch = (error, errno).
Proof.
  intros Hload Hfd. unfold serve_one. rewrite Hload. cbn [Z.eqb Pos.eqb].
  destruct (Z.eqb_spec fd 0); [contradiction|].
  pose proof (set_filters_calls e' fd ioctl_result
                (seq 0 (Z.to_nat (channels l)))) as Hcalls.
  pose proof (fun m => set_filters_messages e' fd ioctl_result
                (seq 0 (Z.to_nat (channels l))) m) as Hmsgs.
  destruct (set_filters in_background e' fd ioctl_result
              (seq 0 (Z.to_nat (channels l)))) as [calls msgs].
  cbn [fst snd] in Hcalls, Hmsgs. subst calls.
  assert (Hbs : block_size e' = block_size e).
  { rewrite EqualizerLoad_outcome in Hload.
    destruct (sample_bins _ _ _ _ _ _); inversion Hload; reflexivity. }
  rewrite Hbs. exists msgs. split; [reflexivity|].
  intros ch error errno. rewrite Hmsgs. split.
  - intros (Hbg & c & Hc & Herr & Hm). apply in_seq in Hc.
    inversion Hm; subst. split; [reflexivity|]. split; [lia|].
    split; [exact Herr|]. apply surjective_pairing.
  - intros (Hbg & Hch & Herr & Hres). split; [exact Hbg|].
    exists (Z.to_nat ch). rewrite Z2Nat.id by lia. rewrite Hres.
    cbn [fst snd]. split; [apply in_seq; lia|]. split; [exact Herr|].
    reflexivity.
Qed.

(** Two equalizers that agree on the rate, the block size and the filter
    are taken to the same equalizer by the round of any datagram, with the
    same calls and messages. *)
Lemma serve_one_agrees (fuel : nat) (l : locals D) (fd : Z)
    (ioctl_result : Z -> Z * Z) (e1 e2 : Equalizer D) (datagram : string) :
  rate e1 = rate e2 -> block_size e1 = block_size e2 ->
  fftw_time e1 = fftw_time e2 ->
  serve_one in_background fuel l fd ioctl_result e1 datagram
  = serve_one in_background fuel l fd ioctl_result e2 datagram.
Proof.
  intros Hr Hb Ht. unfold serve_one.
  rewrite !EqualizerLoad_outcome, Hr, Hb, Ht.
  destruct (sample_bins _ _ _ _ _ _); reflexivity.
Qed.

Lemma serve_agrees (fuel : nat) (l : locals D)
    (reqs : list (string * Z * (Z -> Z * Z))) :
  forall e1 e2,
  rate e1 = rate e2 -> block_size e1 = block_size e2 ->
  fftw_time e1 = fftw_time e2 ->
  match serve in_background fuel l reqs e1,
        serve in_background fuel l reqs e2 with
  | Some (ea, ca, ma), Some (eb, cb, mb) =>
      ca = cb /\ ma = mb /\ fftw_time ea = fftw_time eb
  | None, None => True
  | _, _ => False
  end.
Proof.
  destruct reqs as [|[[datagram fd] ioctl_result] reqs]; intros e1 e2 Hr Hb Ht.
  - cbn [serve]. repeat split. exact Ht.
  - cbn [serve].
    rewrite (serve_one_agrees fuel l fd ioctl_result e1 e2 datagram Hr Hb Ht).
    destruct (serve_one in_background fuel l fd ioctl_result e2 datagram)
      as [[[e1' calls1] msgs1]|]; [|exact I].
    destruct (serve in_background fuel l reqs e1') as [[[ea ca] ma]|];
      [|exact I].
    repeat split.
Qed.

(** X14.  A datagram that the parser rejects leaves no trace: the rounds
    of any datagrams after it make the same calls to the device and end
    with the same filter as they do without it; only its own messages are
    added to what is printed. *)
Theorem rejected_message_leaves_no_trace (fuel : nat) (l : locals D)
    (fd : Z) (ioctl_result : Z -> Z * Z) (e e' : Equalizer D)
    (datagram : string) (out : list (message D))
    (reqs : list (string * Z * (Z -> Z * Z))) :
  EqualizerLoad in_background fuel e (read_buffer datagram)
    = Some (0%Z, e', out) ->
  match serve in_background fuel l ((datagram, fd, ioctl_result) :: reqs) e,
        serve in_background fuel l reqs e with
  | Some (ea, ca, ma), Some (eb, cb, mb) =>
      ca = cb /\ fftw_time ea = fftw_time eb /\
      ma = map (@MsgLoad D) out ++ mb
  | None, None => True
  | _, _ => False
  end.
Proof.
  intros Hload. cbn [serve]. unfold serve_one at 1. rewrite Hload.
  cbn [Z.eqb].
  assert (Hagree : rate e' = rate e /\ block_size e' = block_size e /\
                   fftw_time e' = fftw_time e).
  { rewrite EqualizerLoad_outcome in Hload.
    destruct (sample_bins _ _ _ _ _ _); inversion Hload; repeat split. }
  destruct Hagree as (Hr & Hb & Ht).
  pose proof (serve_agrees fuel l reqs e' e Hr Hb Ht) as H.
  destruct (serve in_background fuel l reqs e') as [[[ea ca] ma]|];
    destruct (serve in_background fuel l reqs e) as [[[eb cb] mb]|];
    try exact H.
  destruct H as (Hc & Hm & Hf). cbn [app]. repeat split; congruence.
Qed.

End ServeFacts.

(** ** Reloads and rounds, run in exact arithmetic *)

Section ReloadRuns.

Import Ideal Requested.

Local Open Scope string_scope.
Local Open Scope R_scope.

Lemma r2hc_ref_length (n : Z) (x : list R) :
  length (r2hc_ref n x) = Z.to_nat n.
Proof. unfold r2hc_ref. rewrite length_map, length_seq. reflexivity. Qed.

Lemma scans_6000 : scans_to "6000 2" [(6000, 2)].
Proof.
  apply scans_pair with (len := 6%nat); try reflexivity.
  apply scans_end.
Qed.

Lemma read_buffer_30000_2 : read_buffer "30000 2" = "30000 2".
Proof. vm_compute. reflexivity. Qed.

Lemma read_buffer_x : read_buffer "x" = "x".
Proof. vm_compute. reflexivity. Qed.

(** At rate 48000 and block size 4 the text ["x"] is rejected. *)
Lemma reload_x :
  EqualizerLoad 0 1 eq_48000_4_used "x"
  = Some (0%Z, mkEqualizer 48000 4 [0; 1; 2; 1] (memset_zero 4),
          [MsgReloading "x"; MsgParseError]).
Proof.
  apply (@reload_fails_unscannable R _ _ _ _ 0%Z 0 eq_48000_4_used "x");
    try reflexivity.
  - apply bin_0_reaches_0.
  - vm_compute. discriminate.
Qed.

(** X8 at rate 48000, block size 8 and the text ["30000 2"]. *)
Lemma reload_keeps_shape_witness :
  exists e' out,
    EqualizerLoad 0 1 eq_48000_8 "30000 2" = Some (1%Z, e', out) /\
    rate e' = rate eq_48000_8 /\ block_size e' = 8%Z /\
    length (fftw_time e') = 8%nat /\ length (fftw_freq e') = 8%nat.
Proof.
  destruct reload_30000_2 as (e' & out & H). exists e', out.
  split; [exact H|].
  apply (@reload_keeps_shape R _ _ _ _ 0%Z 1 eq_48000_8 e' "30000 2" 1%Z out).
  - intros x. apply hc2r_ref_length.
  - intros x. apply r2hc_ref_length.
  - reflexivity.
  - exact H.
Defined.

(** X9 for two equalizers of rate 48000 and block size 8, one with zeroed
    buffers and one with buffers of ones. *)
Lemma reload_forgets_buffers_witness :
  match EqualizerLoad 0 1 eq_48000_8 "30000 2",
        EqualizerLoad 0 1
          (mkEqualizer 48000 8 (repeat 1 8) (repeat 1 8)) "30000 2" with
  | Some (ok1, e1', out1), Some (ok2, e2', out2) =>
      ok1 = ok2 /\ out1 = out2 /\ fftw_freq e1' = fftw_freq e2' /\
      (ok1 = 1%Z -> e1' = e2')
  | None, None => True
  | _, _ => False
  end.
Proof.
  apply (@reload_forgets_buffers R _ _ _ _ 0%Z 1 eq_48000_8
           (mkEqualizer 48000 8 (repeat 1 8) (repeat 1 8)) "30000 2");
    reflexivity.
Defined.

(** X11 at rate 48000, block size 8 and the text ["6000 2"]: the filter is
    2 at sample 4 and 0 elsewhere. *)
Lemma level_response_is_scaled_delay_witness :
  exists e' out,
    EqualizerLoad 0 2 eq_48000_8 "6000 2" = Some (1%Z, e', out) /\
    forall j, (j < 8)%nat ->
      nth j (fftw_time e') 0 = if (j =? 4)%nat then 2 else 0.
Proof.
  apply (@level_response_is_scaled_delay R_scanf 0%Z 2 eq_48000_8 "6000 2"
           [(6000, 2)] 2).
  - exact scans_6000.
  - simpl. lra.
  - intros p [<-|[]]. reflexivity.
  - discriminate.
  - simpl. lra.
  - reflexivity.
  - reflexivity.
  - simpl. lia.
Defined.

(** X13 for the default options (two channels, device [/dev/vdsp.ctl]),
    descriptor 3 and an [ioctl] that fails on channel 1 only. *)
Lemma accepted_message_reaches_every_channel_witness :
  exists e' out msgs,
    EqualizerLoad 0 1 eq_48000_8 "30000 2" = Some (1%Z, e', out) /\
    serve_one 0 1 main_defaults 3
      (fun ch => if (ch =? 1)%Z then ((-1)%Z, 22%Z) else (0%Z, 0%Z))
      eq_48000_8 "30000 2"
    = Some (e',
            [DevOpen "/dev/vdsp.ctl";
             DevIoctl 3 0 0 8 (fftw_time e');
             DevIoctl 3 1 0 8 (fftw_time e');
             DevClose 3],
            (map (@MsgLoad R) out ++ msgs)%list) /\
    forall ch error errno,
      In (MsgCannotSetFilter ch error errno) msgs <->
      0%Z = 0%Z /\ (0 <= ch < 2)%Z /\ error <> 0%Z /\
      (if (ch =? 1)%Z then ((-1)%Z, 22%Z) else (0%Z, 0%Z)) = (error, errno).
Proof.
  destruct reload_30000_2 as (e' & out & H).
  destruct (@accepted_message_reaches_every_channel R _ _ _ _ 0%Z 1
              main_defaults 3
              (fun ch => if (ch =? 1)%Z then ((-1)%Z, 22%Z) else (0%Z, 0%Z))
              eq_48000_8 e' "30000 2" out)
    as (msgs & Hserve & Hmsgs).
  - rewrite read_buffer_30000_2. exact H.
  - discriminate.
  - exists e', out, msgs. split; [exact H|]. split; [exact Hserve|].
    exact Hmsgs.
Defined.

(** X14 for the rejected text ["x"], followed by the text ["30000 2"]. *)
Lemma rejected_message_leaves_no_trace_witness :
  match serve 0 1 main_defaults
          [("x", 3%Z, fun _ : Z => (0%Z, 0%Z));
           ("30000 2", 3%Z, fun _ : Z => (0%Z, 0%Z))] eq_48000_4_used,
        serve 0 1 main_defaults
          [("30000 2", 3%Z, fun _ : Z => (0%Z, 0%Z))] eq_48000_4_used with
  | Some (ea, ca, ma), Some (eb, cb, mb) =>
      ca = cb /\ fftw_time ea = fftw_time eb /\
      ma = (map (@MsgLoad R) [MsgReloading "x"; MsgParseError] ++ mb)%list
  | None, None => True
  | _, _ => False
  end.
Proof.
  apply (@rejected_message_leaves_no_trace R _ _ _ _ 0%Z 1 main_defaults 3
           (fun _ => (0%Z, 0%Z)) eq_48000_4_used
           (mkEqualizer 48000 4 [0; 1; 2; 1] (memset_zero 4)) "x"
           [MsgReloading "x"; MsgParseError]
           [("30000 2", 3%Z, fun _ : Z => (0%Z, 0%Z))]).
  rewrite read_buffer_x. exact reload_x.
Defined.

End ReloadRuns.
